(** * go-api-scheduler: the job registry, the job state machine and the log

    A shallow embedding of [internal/logger/logger.go] and
    [internal/scheduler/scheduler.go], and of their callers in
    [internal/handler/handler.go] and [cmd/api-scheduler/main.go].

    - The two packages keep their state in package variables guarded by a
      mutex.  A mutex-protected function body is one atomic transition of
      the embedding; the goroutine started by [go s.run()] is a program
      counter that advances between its blocking points.
    - What the Go runtime, the clock and the network decide (the instant
      returned by [time.Now], which [select] case fires, what [client.Do]
      returns) is the label of a transition.  The diagnostics of one
      transition enter the log together.
    - Of the Go standard library, [json.Unmarshal] into a map of
      strings, [url.Values.Encode] and [http.NewRequest] are modelled
      after their Go sources; time parsing, URL parsing and printing,
      [Duration.String] and [strings.ToUpper] are the fields of the
      class [GoLib], and every property holds for all its instances.
    - A handler takes what the network hands it, the outcome of decoding
      or reading the request body, as an argument; its result is the
      state it leaves and what it wrote to its [http.ResponseWriter]. *)

From Stdlib Require Import ZArith Lia Ascii String.
From stdpp Require Import base option list gmap strings pretty sorting.

Open Scope Z_scope.

(** ** Package [logger] *)

Module logger.

(** [type LogEntry struct { Time string; Message string }] *)
Record LogEntry : Type := MkLogEntry { Time : string; Message : string }.

(** The cap of the log, the literal [100] of [AddLog]. *)
Definition cap : nat := 100.

(** [func AddLog(message string)]: the package variable [logs] is passed
    and returned; [now] is [time.Now().Format("15:04:05")]. *)
Definition AddLog (now message : string) (logs : list LogEntry) : list LogEntry :=
  let entry := {| Time := now; Message := message |} in
  let logs := logs ++ [entry] in
  if (cap <? length logs)%nat then drop 1 logs else logs.

(** [func GetLogs() []LogEntry] *)
Definition GetLogs (logs : list LogEntry) : list LogEntry := logs.

(** A sequence of [AddLog] calls, each with the clock reading it saw. *)
Definition AddLogs (calls : list (string * string)) (logs : list LogEntry)
  : list LogEntry :=
  foldl (fun acc c => AddLog c.1 c.2 acc) logs calls.

(** The entries a sequence of calls would leave in an unbounded log. *)
Definition entries (calls : list (string * string)) : list LogEntry :=
  map (fun c => {| Time := c.1; Message := c.2 |}) calls.

End logger.

(** ** The Go standard library, as far as the scheduler uses it *)

Module golib.

(** A Go call that returns [(value, error)]. *)
Inductive Res (A : Type) : Type :=
| Val (a : A)
| Fail (err : string).
Arguments Val {A} a.
Arguments Fail {A} err.

(** *** Package [time] *)

(** [time.Duration] is an [int64] count of nanoseconds. *)
Definition Second : Z := 1000000000.
Definition Minute : Z := 60 * Second.
Definition Hour : Z := 60 * Minute.

Definition minDuration : Z := - 2 ^ 63.
Definition maxDuration : Z := 2 ^ 63 - 1.

(** Multiplication of two [int64] values wraps around. *)
Definition wrap64 (z : Z) : Z := (z + 2 ^ 63) mod 2 ^ 64 - 2 ^ 63.
Definition mul64 (a b : Z) : Z := wrap64 (a * b).

(** An instant is its number of nanoseconds since the Unix epoch. *)
Definition Time_Before (t u : Z) : bool := t <? u.
Definition Time_Add (t d : Z) : Z := t + d.

(** [t.Sub(u)] saturates at the ends of the [Duration] range. *)
Definition Time_Sub (t u : Z) : Z :=
  if t - u <? minDuration then minDuration
  else if maxDuration <? t - u then maxDuration
  else t - u.

(** [time.NewTicker(d)] panics unless [d] is positive. *)
Definition NewTicker (d : Z) : Res Z :=
  if d <=? 0 then Fail "non-positive interval for NewTicker" else Val d.

(** *** Package [net/url]: the [URL] struct *)

Record URL : Type := MkURL {
  Scheme : string;
  Opaque : string;
  User : option (string * option string);
  Host : string;
  Path : string;
  RawPath : string;
  OmitHost : bool;
  ForceQuery : bool;
  RawQuery : string;
  Fragment : string;
  RawFragment : string
}.

(** [u.RawQuery = q] *)
Definition set_RawQuery (q : string) (u : URL) : URL :=
  {| Scheme := Scheme u; Opaque := Opaque u; User := User u; Host := Host u;
     Path := Path u; RawPath := RawPath u; OmitHost := OmitHost u;
     ForceQuery := ForceQuery u; RawQuery := q; Fragment := Fragment u;
     RawFragment := RawFragment u |}.

(** [u.Host = h] *)
Definition set_Host (h : string) (u : URL) : URL :=
  {| Scheme := Scheme u; Opaque := Opaque u; User := User u; Host := h;
     Path := Path u; RawPath := RawPath u; OmitHost := OmitHost u;
     ForceQuery := ForceQuery u; RawQuery := RawQuery u;
     Fragment := Fragment u; RawFragment := RawFragment u |}.

(** *** Library functions left abstract

    [time_ParseInLocation layout value] parses in [time.Local];
    [duration_String] is [Duration.String]. *)
Class GoLib : Type := MkGoLib {
  time_ParseInLocation : string -> string -> Res Z;
  duration_String : Z -> string;
  strings_ToUpper : string -> string;
  url_Parse : string -> Res URL;
  url_String : URL -> string
}.

(** *** Package [net/url]: [QueryEscape] and [Values.Encode] *)

Definition byte_of (c : ascii) : N := N_of_ascii c.

Definition is_alnum (c : ascii) : bool :=
  let n := byte_of c in
  ((48 <=? n) && (n <=? 57) || (65 <=? n) && (n <=? 90)
   || (97 <=? n) && (n <=? 122))%N.

(** [shouldEscape(c, encodeQueryComponent)] *)
Definition shouldEscape (c : ascii) : bool :=
  if is_alnum c then false
  else match c with
       | "-" | "_" | "." | "~" => false
       | _ => true
       end%char.

Definition upperhex (n : N) : ascii :=
  match n with
  | 0 => "0" | 1 => "1" | 2 => "2" | 3 => "3" | 4 => "4" | 5 => "5"
  | 6 => "6" | 7 => "7" | 8 => "8" | 9 => "9" | 10 => "A" | 11 => "B"
  | 12 => "C" | 13 => "D" | 14 => "E" | _ => "F"
  end%N%char.

Fixpoint QueryEscape (s : string) : string :=
  match s with
  | EmptyString => EmptyString
  | String c r =>
      if shouldEscape c then
        if Ascii.eqb c " " then String "+" (QueryEscape r)
        else String "%" (String (upperhex (byte_of c / 16))
                           (String (upperhex (byte_of c mod 16)) (QueryEscape r)))
      else String c (QueryEscape r)
  end.

(** [url.Values] is [map[string][]string]. *)
Definition Values_Add (key value : string) (v : gmap string (list string))
  : gmap string (list string) :=
  <[key := default [] (v !! key) ++ [value]]> v.

Definition string_le (a b : string) : Prop := String.leb a b = true.

#[global] Instance string_le_dec a b : Decision (string_le a b).
Proof. unfold string_le. apply _. Defined.

(** The [key=value] pairs of one key, in the order the values were added. *)
Definition encode_key (v : gmap string (list string)) (k : string) : list string :=
  map (fun x => QueryEscape k +:+ "=" +:+ QueryEscape x) (default [] (v !! k)).

Fixpoint join_amp (l : list string) : string :=
  match l with
  | [] => ""
  | [x] => x
  | x :: r => x +:+ "&" +:+ join_amp r
  end.

(** [func (v Values) Encode() string]: keys sorted, pairs joined by [&]. *)
Definition Values_Encode (v : gmap string (list string)) : string :=
  let keys := merge_sort string_le (map fst (map_to_list v)) in
  join_amp (concat (map (encode_key v) keys)).

End golib.

(** ** Package [encoding/json]: [Unmarshal] into a [map[string]string]

    [Unmarshal] first runs the scanner over the whole input
    ([checkValid]); only valid input is decoded.  The scanner is the
    byte-at-a-time state machine of [scanner.go]; the decoder below rides
    on it and records what [decodeState.object] stores into a map whose
    keys and elements are strings. *)

Module json.

Inductive pstate : Type := parseObjectKey | parseObjectValue | parseArrayValue.

Inductive sstate : Type :=
| stateBeginValueOrEmpty | stateBeginValue
| stateBeginStringOrEmpty | stateBeginString
| stateEndValue | stateEndTop
| stateInString | stateInStringEsc
| stateInStringEscU | stateInStringEscU1 | stateInStringEscU12
| stateInStringEscU123
| stateNeg | state1 | state0 | stateDot | stateDot0
| stateE | stateESign | stateE0
| stateT | stateTr | stateTru
| stateF | stateFa | stateFal | stateFals
| stateN | stateNu | stateNul
| stateError.

(** [parseState] is a stack; its top is the head of the list. *)
Record scanner : Type := MkScanner { step : sstate; parseState : list pstate }.

Definition maxNestingDepth : N := 10000.

(** The byte of the double quote. *)
Definition dquote : ascii := "034"%char.

Definition scanError : scanner := MkScanner stateError [].

Definition isSpace (c : ascii) : bool :=
  (Ascii.eqb c " " || Ascii.eqb c "009" || Ascii.eqb c "013"
   || Ascii.eqb c "010")%char.

Definition isDigit (c : ascii) : bool :=
  (48 <=? N_of_ascii c)%N && (N_of_ascii c <=? 57)%N.

Definition isDigit19 (c : ascii) : bool :=
  (49 <=? N_of_ascii c)%N && (N_of_ascii c <=? 57)%N.

Definition isHex (c : ascii) : bool :=
  let n := N_of_ascii c in
  ((48 <=? n) && (n <=? 57) || (97 <=? n) && (n <=? 102)
   || (65 <=? n) && (n <=? 70))%N.

Definition pushParseState (ps : list pstate) (p : pstate) (next : sstate)
  : scanner :=
  if (N.of_nat (length (p :: ps)) <=? maxNestingDepth)%N
  then MkScanner next (p :: ps)
  else scanError.

Definition popParseState (rest : list pstate) : scanner :=
  match rest with
  | [] => MkScanner stateEndTop []
  | _ => MkScanner stateEndValue rest
  end.

Definition doEndTop (c : ascii) : scanner :=
  if isSpace c then MkScanner stateEndTop [] else scanError.

Definition doEndValue (ps : list pstate) (c : ascii) : scanner :=
  match ps with
  | [] => doEndTop c
  | top :: rest =>
      if isSpace c then MkScanner stateEndValue ps
      else match top with
           | parseObjectKey =>
               if Ascii.eqb c ":" then MkScanner stateBeginValue (parseObjectValue :: rest)
               else scanError
           | parseObjectValue =>
               if Ascii.eqb c "," then MkScanner stateBeginString (parseObjectKey :: rest)
               else if Ascii.eqb c "}" then popParseState rest
               else scanError
           | parseArrayValue =>
               if Ascii.eqb c "," then MkScanner stateBeginValue ps
               else if Ascii.eqb c "]" then popParseState rest
               else scanError
           end
  end.

Definition doBeginValue (ps : list pstate) (c : ascii) : scanner :=
  if Ascii.eqb c "{" then pushParseState ps parseObjectKey stateBeginStringOrEmpty
  else if Ascii.eqb c "[" then pushParseState ps parseArrayValue stateBeginValueOrEmpty
  else if Ascii.eqb c dquote then MkScanner stateInString ps
  else if Ascii.eqb c "-" then MkScanner stateNeg ps
  else if Ascii.eqb c "0" then MkScanner state0 ps
  else if Ascii.eqb c "t" then MkScanner stateT ps
  else if Ascii.eqb c "f" then MkScanner stateF ps
  else if Ascii.eqb c "n" then MkScanner stateN ps
  else if isDigit19 c then MkScanner state1 ps
  else scanError.

Definition doBeginString (ps : list pstate) (c : ascii) : scanner :=
  if Ascii.eqb c dquote then MkScanner stateInString ps else scanError.

Definition do0 (ps : list pstate) (c : ascii) : scanner :=
  if Ascii.eqb c "." then MkScanner stateDot ps
  else if Ascii.eqb c "e" || Ascii.eqb c "E" then MkScanner stateE ps
  else doEndValue ps c.

Definition doESign (ps : list pstate) (c : ascii) : scanner :=
  if isDigit c then MkScanner stateE0 ps else scanError.

Definition expect (want : ascii) (next : sstate) (ps : list pstate) (c : ascii)
  : scanner :=
  if Ascii.eqb c want then MkScanner next ps else scanError.

(** One call [s.step(s, c)]. *)
Definition scan_step (s : scanner) (c : ascii) : scanner :=
  let ps := parseState s in
  match step s with
  | stateBeginValueOrEmpty =>
      if isSpace c then s
      else if Ascii.eqb c "]" then doEndValue ps c
      else doBeginValue ps c
  | stateBeginValue => if isSpace c then s else doBeginValue ps c
  | stateBeginStringOrEmpty =>
      if isSpace c then s
      else if Ascii.eqb c "}" then
        match ps with
        | _ :: rest => doEndValue (parseObjectValue :: rest) c
        | [] => scanError
        end
      else doBeginString ps c
  | stateBeginString => if isSpace c then s else doBeginString ps c
  | stateEndValue => doEndValue ps c
  | stateEndTop => doEndTop c
  | stateInString =>
      if Ascii.eqb c dquote then MkScanner stateEndValue ps
      else if Ascii.eqb c "\" then MkScanner stateInStringEsc ps
      else if (N_of_ascii c <? 32)%N then scanError
      else s
  | stateInStringEsc =>
      if Ascii.eqb c "b" || Ascii.eqb c "f" || Ascii.eqb c "n"
         || Ascii.eqb c "r" || Ascii.eqb c "t" || Ascii.eqb c "\"
         || Ascii.eqb c "/" || Ascii.eqb c dquote
      then MkScanner stateInString ps
      else if Ascii.eqb c "u" then MkScanner stateInStringEscU ps
      else scanError
  | stateInStringEscU =>
      if isHex c then MkScanner stateInStringEscU1 ps else scanError
  | stateInStringEscU1 =>
      if isHex c then MkScanner stateInStringEscU12 ps else scanError
  | stateInStringEscU12 =>
      if isHex c then MkScanner stateInStringEscU123 ps else scanError
  | stateInStringEscU123 =>
      if isHex c then MkScanner stateInString ps else scanError
  | stateNeg =>
      if Ascii.eqb c "0" then MkScanner state0 ps
      else if isDigit19 c then MkScanner state1 ps
      else scanError
  | state1 => if isDigit c then s else do0 ps c
  | state0 => do0 ps c
  | stateDot => if isDigit c then MkScanner stateDot0 ps else scanError
  | stateDot0 =>
      if isDigit c then s
      else if Ascii.eqb c "e" || Ascii.eqb c "E" then MkScanner stateE ps
      else doEndValue ps c
  | stateE =>
      if Ascii.eqb c "+" || Ascii.eqb c "-" then MkScanner stateESign ps
      else doESign ps c
  | stateESign => doESign ps c
  | stateE0 => if isDigit c then s else doEndValue ps c
  | stateT => expect "r" stateTr ps c
  | stateTr => expect "u" stateTru ps c
  | stateTru => expect "e" stateEndValue ps c
  | stateF => expect "a" stateFa ps c
  | stateFa => expect "l" stateFal ps c
  | stateFal => expect "s" stateFals ps c
  | stateFals => expect "e" stateEndValue ps c
  | stateN => expect "u" stateNu ps c
  | stateNu => expect "l" stateNul ps c
  | stateNul => expect "l" stateEndValue ps c
  | stateError => scanError
  end.

Definition endTop (s : scanner) : bool :=
  match step s with stateEndTop => true | _ => false end.

(** [s.eof()]: a number at top level is only finished by the end of input. *)
Definition eof (s : scanner) : bool :=
  if endTop s then true else endTop (scan_step s " ").

Definition reset : scanner := MkScanner stateBeginValue [].

(** [checkValid(data, scan) == nil] *)
Definition checkValid (data : string) : bool :=
  eof (foldl scan_step reset (list_ascii_of_string data)).

(** *** Unquoting a string literal ([unquoteBytes])

    The argument is the text between the quotes. *)

Definition hexval (c : ascii) : option N :=
  let n := N_of_ascii c in
  if ((48 <=? n) && (n <=? 57))%N then Some (n - 48)%N
  else if ((97 <=? n) && (n <=? 102))%N then Some (n - 87)%N
  else if ((65 <=? n) && (n <=? 70))%N then Some (n - 55)%N
  else None.

(** [getu4] on the four characters after the backslash and the [u]. *)
Definition getu4 (a b c d : ascii) : option N :=
  match hexval a, hexval b, hexval c, hexval d with
  | Some x, Some y, Some z, Some w => Some (x * 4096 + y * 256 + z * 16 + w)%N
  | _, _, _, _ => None
  end.

Definition ReplacementChar : N := 65533.

Definition byte (n : N) : ascii := ascii_of_N (n mod 256).

(** [utf8.EncodeRune] *)
Definition EncodeRune (r : N) : list ascii :=
  if (r <? 128)%N then [byte r]
  else if (r <? 2048)%N then [byte (192 + r / 64); byte (128 + r mod 64)]
  else if ((55296 <=? r) && (r <=? 57343) || (1114111 <? r))%N then
    [byte 239; byte 191; byte 189]
  else if (r <? 65536)%N then
    [byte (224 + r / 4096); byte (128 + (r / 64) mod 64); byte (128 + r mod 64)]
  else
    [byte (240 + r / 262144); byte (128 + (r / 4096) mod 64);
     byte (128 + (r / 64) mod 64); byte (128 + r mod 64)].

Definition IsSurrogate (r : N) : bool := ((55296 <=? r) && (r <? 57344))%N.

(** [utf16.DecodeRune] *)
Definition utf16_DecodeRune (r1 r2 : N) : N :=
  if ((55296 <=? r1) && (r1 <? 56320) && (56320 <=? r2) && (r2 <? 57344))%N
  then ((r1 - 55296) * 1024 + (r2 - 56320) + 65536)%N
  else ReplacementChar.

Definition between (lo hi : N) (c : ascii) : bool :=
  ((lo <=? N_of_ascii c) && (N_of_ascii c <=? hi))%N.

(** The length of the well-formed UTF-8 sequence that starts with byte
    [c] and continues with [r]; [None] for a byte [utf8.DecodeRune]
    answers with [(RuneError, 1)]. *)
Definition utf8_len (c : ascii) (r : list ascii) : option nat :=
  let n := N_of_ascii c in
  let cont := between 128 191 in
  if between 194 223 c then
    match r with c1 :: _ => if cont c1 then Some 2%nat else None | _ => None end
  else if between 224 239 c then
    match r with
    | c1 :: c2 :: _ =>
        let lo := if (n =? 224)%N then 160%N else 128%N in
        let hi := if (n =? 237)%N then 159%N else 191%N in
        if between lo hi c1 && cont c2 then Some 3%nat else None
    | _ => None
    end
  else if between 240 244 c then
    match r with
    | c1 :: c2 :: c3 :: _ =>
        let lo := if (n =? 240)%N then 144%N else 128%N in
        let hi := if (n =? 244)%N then 143%N else 191%N in
        if between lo hi c1 && cont c2 && cont c3 then Some 4%nat else None
    | _ => None
    end
  else None.

Definition simple_escape (e : ascii) : option ascii :=
  if Ascii.eqb e dquote || Ascii.eqb e "\" || Ascii.eqb e "/" || Ascii.eqb e "'"
  then Some e
  else if Ascii.eqb e "b" then Some "008"%char
  else if Ascii.eqb e "f" then Some "012"%char
  else if Ascii.eqb e "n" then Some "010"%char
  else if Ascii.eqb e "r" then Some "013"%char
  else if Ascii.eqb e "t" then Some "009"%char
  else None.

(** The rune of a [\uXXXX] escape whose tail is [r]: a high surrogate
    followed by an escaped low surrogate makes one rune and [true] says
    that the second escape is consumed too. *)
Definition escaped_rune (rr : N) (r : list ascii) : N * bool :=
  if IsSurrogate rr then
    match r with
    | b :: u :: g1 :: g2 :: g3 :: g4 :: _ =>
        if Ascii.eqb b "\" && Ascii.eqb u "u" then
          match getu4 g1 g2 g3 g4 with
          | Some rr1 =>
              let dec := utf16_DecodeRune rr rr1 in
              if (dec =? ReplacementChar)%N then (ReplacementChar, false)
              else (dec, true)
          | None => (ReplacementChar, false)
          end
        else (ReplacementChar, false)
    | _ => (ReplacementChar, false)
    end
  else (rr, false).

Fixpoint unquote (s : list ascii) : option (list ascii) :=
  match s with
  | [] => Some []
  | c :: r =>
      if Ascii.eqb c "\" then
        match r with
        | [] => None
        | e :: r1 =>
            if Ascii.eqb e "u" then
              match r1 with
              | h1 :: h2 :: h3 :: h4 :: r2 =>
                  match getu4 h1 h2 h3 h4 with
                  | None => None
                  | Some rr =>
                      let '(rune, both) := escaped_rune rr r2 in
                      let rest :=
                        if both then
                          match r2 with
                          | _ :: _ :: _ :: _ :: _ :: _ :: r3 => unquote r3
                          | _ => None
                          end
                        else unquote r2 in
                      (fun t => EncodeRune rune ++ t) <$> rest
                  end
              | _ => None
              end
            else
              match simple_escape e with
              | Some x => (fun t => x :: t) <$> unquote r1
              | None => None
              end
        end
      else if Ascii.eqb c dquote || (N_of_ascii c <? 32)%N then None
      else if (N_of_ascii c <? 128)%N then (fun t => c :: t) <$> unquote r
      else
        match utf8_len c r, r with
        | Some 2%nat, c1 :: r1 => (fun t => c :: c1 :: t) <$> unquote r1
        | Some 3%nat, c1 :: c2 :: r1 => (fun t => c :: c1 :: c2 :: t) <$> unquote r1
        | Some 4%nat, c1 :: c2 :: c3 :: r1 =>
            (fun t => c :: c1 :: c2 :: c3 :: t) <$> unquote r1
        | _, _ => (fun t => EncodeRune ReplacementChar ++ t) <$> unquote r
        end
  end.

(** *** Decoding into [map[string]string]

    The errors [Unmarshal] can return here. *)
Inductive error : Type :=
| SyntaxError
| UnmarshalTypeError (Value : string).

(** The decoder: the scanner, the text of the string literal being read
    (most recent byte first), the key of the member being read, the map
    behind the pointer, and the first error saved by [saveError]. *)
Record decodeState : Type := MkDecode {
  scan : scanner;
  lit : list ascii;
  key : string;
  target : gmap string string;
  savedError : option error
}.

Definition saveError (e : error) (saved : option error) : option error :=
  match saved with
  | None => Some e
  | Some _ => saved
  end.

Definition unquoted (raw : list ascii) : string :=
  string_of_list_ascii (default [] (unquote (rev raw))).

(** What kind of value starts with byte [c] (the name
    [UnmarshalTypeError] gives it); [None] for [null]. *)
Definition value_kind (c : ascii) : option string :=
  if Ascii.eqb c "{" then Some "object"
  else if Ascii.eqb c "[" then Some "array"
  else if Ascii.eqb c dquote then Some "string"
  else if Ascii.eqb c "t" || Ascii.eqb c "f" then Some "bool"
  else if Ascii.eqb c "n" then None
  else Some "number".

(** The top-level value: an object fills the map, [null] sets the map to
    nil, anything else is a type error that leaves the map alone. *)
Definition decode_top (c : ascii) (d : decodeState) (s' : scanner) : decodeState :=
  if Ascii.eqb c "{" then MkDecode s' [] (key d) (target d) (savedError d)
  else match value_kind c with
       | None => MkDecode s' [] (key d) ∅ (savedError d)
       | Some k =>
           MkDecode s' [] (key d) (target d)
             (saveError (UnmarshalTypeError k) (savedError d))
       end.

(** The value of a member of the top-level object.  The element is
    reset to the empty string before [d.value(subv)]; a string literal
    is stored when its closing quote is read, [null] leaves the element
    as it is, any other value is a type error; in each case the element
    is then written under the key ([SetMapIndex]). *)
Definition decode_elem (c : ascii) (d : decodeState) (s' : scanner) : decodeState :=
  if Ascii.eqb c dquote then MkDecode s' [] (key d) (target d) (savedError d)
  else match value_kind c with
       | None => MkDecode s' [] (key d) (<[key d := ""]> (target d)) (savedError d)
       | Some k =>
           MkDecode s' [] (key d) (<[key d := ""]> (target d))
             (saveError (UnmarshalTypeError k) (savedError d))
       end.

Definition in_string (st : sstate) : bool :=
  match st with
  | stateInString | stateInStringEsc | stateInStringEscU | stateInStringEscU1
  | stateInStringEscU12 | stateInStringEscU123 => true
  | _ => false
  end.

Definition decode_step (d : decodeState) (c : ascii) : decodeState :=
  let s := scan d in
  let s' := scan_step s c in
  let keep := MkDecode s' (lit d) (key d) (target d) (savedError d) in
  let grow := MkDecode s' (c :: lit d) (key d) (target d) (savedError d) in
  match step s, parseState s with
  | stateBeginValue, [] => if isSpace c then keep else decode_top c d s'
  | stateBeginValue, [parseObjectValue] =>
      if isSpace c then keep else decode_elem c d s'
  | (stateBeginString | stateBeginStringOrEmpty), [parseObjectKey] =>
      MkDecode s' [] (key d) (target d) (savedError d)
  | stateInString, [parseObjectKey] =>
      if Ascii.eqb c dquote
      then MkDecode s' [] (unquoted (lit d)) (target d) (savedError d)
      else grow
  | stateInString, [parseObjectValue] =>
      if Ascii.eqb c dquote
      then MkDecode s' [] (key d)
             (<[key d := unquoted (lit d)]> (target d)) (savedError d)
      else grow
  | st, [_] => if in_string st then grow else keep
  | _, _ => keep
  end.

(** [json.Unmarshal(data, &v)] for [v] of type [map[string]string]; a
    nil map is the empty map.  The result is the map afterwards and the
    error returned. *)
Definition Unmarshal (data : string) (v : gmap string string)
  : gmap string string * option error :=
  if checkValid data then
    let d := foldl decode_step (MkDecode reset [] "" v None)
               (list_ascii_of_string data) in
    (target d, savedError d)
  else (v, Some SyntaxError).







End json.

(** ** Package [net/http]: requests *)

Module http.

Import golib.

(** The part of [http.Request] that [NewRequest] fills in. *)
Record Request : Type := MkRequest {
  Method : string;
  URL : golib.URL;
  Header : gmap string (list string);
  Body : option string;
  Host : string
}.

Definition StatusOK : Z := 200.

(** [req.Header.Set(key, value)], for a key in canonical form. *)
Definition Header_Set (key value : string) (req : Request) : Request :=
  MkRequest (Method req) (URL req) (<[key := [value]]> (Header req))
    (Body req) (Host req).

(** [strings.LastIndex] for a one-byte separator; [-1] when absent. *)
Fixpoint last_index_from (c : ascii) (s : string) (pos acc : Z) : Z :=
  match s with
  | EmptyString => acc
  | String x r => last_index_from c r (pos + 1) (if Ascii.eqb x c then pos else acc)
  end.

Definition LastIndex (s : string) (c : ascii) : Z := last_index_from c s 0 (-1).

Definition hasPort (s : string) : bool := LastIndex s "]" <? LastIndex s ":".

Definition TrimSuffix_colon (s : string) : string :=
  match rev (list_ascii_of_string s) with
  | c :: r => if Ascii.eqb c ":" then string_of_list_ascii (rev r) else s
  | [] => s
  end.

Definition removeEmptyPort (host : string) : string :=
  if hasPort host then TrimSuffix_colon host else host.

(** [http.NewRequest(method, url, body)] for the two method literals of
    [callAPI], both valid method tokens: the call fails exactly when the
    URL does not parse. *)
Definition NewRequest `{GoLib} (method url : string) (body : option string)
  : Res Request :=
  match url_Parse url with
  | Fail err => Fail err
  | Val u =>
      let h := removeEmptyPort (golib.Host u) in
      Val (MkRequest method (set_Host h u) ∅ body h)
  end.

End http.

(** ** Package [scheduler] *)

Module scheduler.

Import golib.

(** [type SchedulerConfig struct]; [RepeatValue] is a Go [int]. *)
Record SchedulerConfig : Type := MkConfig {
  StartTime : string;
  RepeatValue : Z;
  RepeatUnit : string;
  APIURL : string;
  HTTPMethod : string;
  Payload : string
}.

(** A [chan struct{}] on which nothing is ever sent: it is open until
    [close] and a receive only succeeds once it is closed. *)
Inductive chan : Type := ChanOpen | ChanClosed.

(** [type Scheduler struct] *)
Record Scheduler : Type := MkScheduler {
  id : string;
  stopChan : chan;
  running : bool;
  config : SchedulerConfig
}.

(** Where the goroutine of [run] stands.  [AtSelfStop resume] is the call
    [StopScheduler(s.id)] made by the job itself, before it has the
    lock: from [run] the goroutine returns afterwards ([None]), from
    [callAPI] it goes back to the loop with its ticker ([Some d]). *)
Inductive Phase : Type :=
| AtEntry
| AtWait (waitDuration : Z)
| AtSelfStop (resume : option Z)
| AtTick (repeatInterval : Z)
| AtDo (repeatInterval : Z) (req : http.Request)
| Returned.

(** A goroutine started by [go s.run()]: the pointer [s] and the place
    it has reached. *)
Record goroutine : Type := MkGo { self : nat; pc : Phase }.

(** The state of the process.  [schedulers] is [None] while the map is
    nil; the map holds pointers, here indices into [heap]; [sent] lists
    the requests handed to [client.Do], each with the pointer of the job
    that sent it. *)
Record World : Type := MkWorld {
  schedulers : option (gmap string nat);
  heap : list Scheduler;
  gos : list goroutine;
  logs : list logger.LogEntry;
  sent : list (nat * http.Request)
}.

(** The result of a transition: the next state, a panic of the
    goroutine that made it, or [Disabled] when the transition cannot be
    taken in this state. *)
Inductive Outcome : Type :=
| Ok (w : World)
| Panic (msg : string)
| Disabled.

(** The process before any package function has run. *)
Definition boot : World := MkWorld None [] [] [] [].

(** [func Init()] *)
Definition Init (w : World) : World :=
  MkWorld (Some ∅) (heap w) (gos w) (logs w) (sent w).

(** [schedulers[id]]: reading a nil map finds nothing. *)
Definition lookup_reg (w : World) (i : string) : option nat :=
  match schedulers w with
  | Some m => m !! i
  | None => None
  end.

(** The [k]-th [logger.AddLog] call of a transition reads [clock k]. *)
Definition stamp (clock : nat -> string) (msgs : list string)
  : list (string * string) :=
  imap (fun k m => (clock k, m)) msgs.

Definition emit (clock : nat -> string) (msgs : list string) (w : World) : World :=
  MkWorld (schedulers w) (heap w) (gos w)
    (logger.AddLogs (stamp clock msgs) (logs w)) (sent w).

Definition set_pc (g : nat) (p : Phase) (w : World) : World :=
  MkWorld (schedulers w) (heap w)
    (alter (fun go => MkGo (self go) p) g (gos w)) (logs w) (sent w).

Definition send (a : nat) (req : http.Request) (w : World) : World :=
  MkWorld (schedulers w) (heap w) (gos w) (logs w) (sent w ++ [(a, req)]).

(** *** The diagnostics, as [fmt.Sprintf] builds them *)

Definition tag (i : string) : string := "[" +:+ i +:+ "] ".

Definition msg_already_running (i : string) : string :=
  tag i +:+ "스케줄러가 이미 실행 중입니다. 새로운 요청을 무시합니다.".
Definition msg_stopped (i : string) : string :=
  tag i +:+ "스케줄러가 중지되었습니다.".
Definition msg_not_running (i : string) : string :=
  tag i +:+ "스케줄러가 실행 중이지 않습니다.".
Definition msg_not_found (i : string) : string :=
  tag i +:+ "존재하지 않는 스케줄러 ID입니다.".
Definition msg_start_request (i : string) : string :=
  tag i +:+ "스케줄러 시작 요청을 받았습니다.".
Definition msg_config (i : string) (c : SchedulerConfig) : string :=
  tag i +:+ "설정: 시작 시각 " +:+ StartTime c +:+ ", 반복 "
    +:+ pretty (RepeatValue c) +:+ RepeatUnit c +:+ ", URL " +:+ APIURL c.
Definition msg_parse_error (i err : string) : string :=
  tag i +:+ "시작 시간 파싱 오류: " +:+ err.
Definition msg_waiting (i d : string) : string :=
  tag i +:+ "스케줄 시작까지 대기 중입니다... 남은 시간: " +:+ d.
Definition msg_stopped_before_start (i : string) : string :=
  tag i +:+ "스케줄러가 시작 전에 중지되었습니다.".
Definition msg_invalid_unit (i : string) : string :=
  tag i +:+ "유효하지 않은 반복 단위입니다. 스케줄러를 중지합니다.".
Definition msg_running (i : string) : string :=
  tag i +:+ "스케줄러가 실행 중입니다.".
Definition msg_call_start (i url method : string) : string :=
  tag i +:+ "API 호출 시작: URL " +:+ url +:+ ", 메서드 " +:+ method.
Definition msg_request_error (i err : string) : string :=
  tag i +:+ "요청 생성 오류: " +:+ err.
Definition msg_url_error (i err : string) : string :=
  tag i +:+ "URL 파싱 오류: " +:+ err.
Definition msg_call_error (i err : string) : string :=
  tag i +:+ "API 호출 오류: " +:+ err.
Definition msg_body_error (i err : string) : string :=
  tag i +:+ "응답 본문 읽기 오류: " +:+ err.
Definition msg_status (i : string) (code : Z) : string :=
  tag i +:+ "API 호출 성공 - HTTP 상태 코드: " +:+ pretty code.
Definition msg_body (i body : string) : string :=
  tag i +:+ "응답 본문: " +:+ body.
Definition msg_ok_stop (i : string) : string :=
  tag i +:+ "응답 성공 (200 OK) - 스케줄러가 자동으로 중지됩니다.".

(** *** The registry *)

(** [func StartScheduler(id string, config SchedulerConfig)].  The new
    [Scheduler] is allocated at the end of the heap; storing into a nil
    map panics. *)
Definition StartScheduler (clock : nat -> string) (i : string)
    (cfg : SchedulerConfig) (w : World) : Outcome :=
  match lookup_reg w i with
  | Some _ => Ok (emit clock [msg_already_running i] w)
  | None =>
      let s := MkScheduler i ChanOpen true cfg in
      let a := length (heap w) in
      match schedulers w with
      | None => Panic "assignment to entry in nil map"
      | Some m =>
          Ok (MkWorld (Some (<[i := a]> m)) (heap w ++ [s])
                (gos w ++ [MkGo a AtEntry]) (logs w) (sent w))
      end
  end.

(** [close(s.stopChan); s.running = false] on the object at [a]. *)
Definition stop_object (s : Scheduler) : Scheduler :=
  MkScheduler (id s) ChanClosed false (config s).

(** [func StopScheduler(id string)].  Closing a closed channel panics. *)
Definition StopScheduler (clock : nat -> string) (i : string) (w : World)
  : Outcome :=
  match lookup_reg w i with
  | Some a =>
      match heap w !! a with
      | Some s =>
          if running s then
            match stopChan s with
            | ChanClosed => Panic "close of closed channel"
            | ChanOpen =>
                Ok (emit clock [msg_stopped i]
                      (MkWorld (delete i <$> schedulers w)
                         (<[a := stop_object s]> (heap w))
                         (gos w) (logs w) (sent w)))
            end
          else Ok (emit clock [msg_not_running i] w)
      | None => Panic "invalid memory address or nil pointer dereference"
      end
  | None => Ok (emit clock [msg_not_found i] w)
  end.

(** *** The job *)

Section job.

Context {lib : GoLib}.

(** Lines 100 to 103 of [run]: the start instant once today's slot has
    been compared with the clock. *)
Definition rollover (startTime now : Z) : Z :=
  if Time_Before startTime now then Time_Add startTime (24 * Hour)
  else startTime.

(** The [switch s.config.RepeatUnit] of [run]; [None] is its default
    branch. *)
Definition repeat_interval (cfg : SchedulerConfig) : option Z :=
  if String.eqb (RepeatUnit cfg) "h" then Some (mul64 (RepeatValue cfg) Hour)
  else if String.eqb (RepeatUnit cfg) "m" then Some (mul64 (RepeatValue cfg) Minute)
  else if String.eqb (RepeatUnit cfg) "s" then Some (mul64 (RepeatValue cfg) Second)
  else None.

(** [var payload map[string]string; json.Unmarshal(..., &payload)]: the
    error is dropped, the map is whatever the decoder left. *)
Definition decode_payload (cfg : SchedulerConfig) : gmap string string :=
  (json.Unmarshal (Payload cfg) ∅).1.

(** [for key, value := range payload { form.Add(key, value) }] *)
Definition range_Add (payload : gmap string string) : gmap string (list string) :=
  map_fold Values_Add ∅ payload.

(** [callAPI] from line 157 up to [client.Do]: the diagnostics of the
    error branches and the request, if one could be built. *)
Definition callAPI_request (s : Scheduler) : list string * option http.Request :=
  let cfg := config s in
  let payload := decode_payload cfg in
  if String.eqb (strings_ToUpper (HTTPMethod cfg)) "POST" then
    let form := range_Add payload in
    match http.NewRequest "POST" (APIURL cfg) (Some (Values_Encode form)) with
    | Fail err => ([msg_request_error (id s) err], None)
    | Val req =>
        ([], Some (http.Header_Set "Content-Type"
                     "application/x-www-form-urlencoded" req))
    end
  else
    match url_Parse (APIURL cfg) with
    | Fail err => ([msg_url_error (id s) err], None)
    | Val baseURL =>
        let params := range_Add payload in
        let baseURL := set_RawQuery (Values_Encode params) baseURL in
        match http.NewRequest "GET" (url_String baseURL) None with
        | Fail err => ([msg_request_error (id s) err], None)
        | Val req => ([], Some req)
        end
    end.

(** What the runtime, the clock and the network hand to a goroutine. *)
Inductive Event : Type :=
| Scheduled (today : string) (now : Z)
| TimerFired
| StopSeen
| LockAcquired
| DoFailed (err : string)
| ReadFailed (err : string)
| Responded (StatusCode : Z) (body : string).

(** [run], from its first line to the first [select] (lines 88 to 106). *)
Definition run_begin (clock : nat -> string) (g : nat) (s : Scheduler)
    (today : string) (now : Z) (w : World) : Outcome :=
  let intro := [msg_start_request (id s); msg_config (id s) (config s)] in
  let startTimeStr := today +:+ " " +:+ StartTime (config s) in
  match time_ParseInLocation "2006-01-02 15:04:05" startTimeStr with
  | Fail err =>
      Ok (set_pc g (AtSelfStop None)
            (emit clock (intro ++ [msg_parse_error (id s) err]) w))
  | Val startTime =>
      let startTime := rollover startTime now in
      let waitDuration := Time_Sub startTime now in
      Ok (set_pc g (AtWait waitDuration)
            (emit clock
               (intro ++ [msg_waiting (id s) (duration_String waitDuration)]) w))
  end.

(** [run], from the expiry of the wait to the loop (lines 116 to 133). *)
Definition run_ticker (clock : nat -> string) (g : nat) (s : Scheduler)
    (w : World) : Outcome :=
  match repeat_interval (config s) with
  | None =>
      Ok (set_pc g (AtSelfStop None) (emit clock [msg_invalid_unit (id s)] w))
  | Some repeatInterval =>
      match NewTicker repeatInterval with
      | Fail msg => Panic msg
      | Val d => Ok (set_pc g (AtTick d) (emit clock [msg_running (id s)] w))
      end
  end.

(** [callAPI], from its first line to [client.Do(req)] (lines 148 to 189). *)
Definition callAPI_send (clock : nat -> string) (g : nat) (a : nat) (s : Scheduler)
    (d : Z) (w : World) : Outcome :=
  let intro :=
    msg_call_start (id s) (APIURL (config s)) (HTTPMethod (config s)) in
  match callAPI_request s with
  | (msgs, None) => Ok (emit clock (intro :: msgs) w)
  | (msgs, Some req) =>
      Ok (set_pc g (AtDo d req) (send a req (emit clock (intro :: msgs) w)))
  end.

(** [callAPI], after [client.Do] and [io.ReadAll] have returned (lines
    202 to 208). *)
Definition callAPI_respond (clock : nat -> string) (g : nat) (s : Scheduler) (d : Z)
    (StatusCode : Z) (body : string) (w : World) : Outcome :=
  let report := [msg_status (id s) StatusCode; msg_body (id s) body] in
  if StatusCode =? http.StatusOK then
    Ok (set_pc g (AtSelfStop (Some d))
          (emit clock (report ++ [msg_ok_stop (id s)]) w))
  else Ok (set_pc g (AtTick d) (emit clock report w)).

Definition after_stop (resume : option Z) : Phase :=
  match resume with
  | None => Returned
  | Some d => AtTick d
  end.

Definition closed (c : chan) : bool :=
  match c with ChanClosed => true | ChanOpen => false end.

(** One transition of goroutine [g]: the two [select] statements of
    [run] (lines 108 and 136), the calls [StopScheduler(s.id)] (lines 96,
    126 and 207) and the return of [client.Do] and [io.ReadAll] (lines
    189 to 200). *)
Definition run_step (clock : nat -> string) (g : nat) (ev : Event) (w : World)
  : Outcome :=
  match gos w !! g with
  | None => Disabled
  | Some go =>
      match heap w !! self go with
      | None => Disabled
      | Some s =>
          match pc go, ev with
          | AtEntry, Scheduled today now => run_begin clock g s today now w
          | AtWait _, TimerFired => run_ticker clock g s w
          | AtWait _, StopSeen =>
              if closed (stopChan s) then
                Ok (set_pc g Returned
                      (emit clock [msg_stopped_before_start (id s)] w))
              else Disabled
          | AtSelfStop resume, LockAcquired =>
              match StopScheduler clock (id s) w with
              | Ok w' => Ok (set_pc g (after_stop resume) w')
              | o => o
              end
          | AtTick d, TimerFired => callAPI_send clock g (self go) s d w
          | AtTick _, StopSeen =>
              if closed (stopChan s) then
                Ok (set_pc g Returned (emit clock [msg_stopped (id s)] w))
              else Disabled
          | AtDo d _, DoFailed err =>
              Ok (set_pc g (AtTick d) (emit clock [msg_call_error (id s) err] w))
          | AtDo d _, ReadFailed err =>
              Ok (set_pc g (AtTick d) (emit clock [msg_body_error (id s) err] w))
          | AtDo d _, Responded StatusCode body =>
              callAPI_respond clock g s d StatusCode body w
          | _, _ => Disabled
          end
      end
  end.

(** *** The process *)

Inductive Label : Type :=
| CallStart (i : string) (cfg : SchedulerConfig)
| CallStop (i : string)
| Run (g : nat) (ev : Event).

Definition step (clock : nat -> string) (l : Label) (w : World) : Outcome :=
  match l with
  | CallStart i cfg => StartScheduler clock i cfg w
  | CallStop i => StopScheduler clock i w
  | Run g ev => run_step clock g ev w
  end.

(** The states of the process: it starts with a nil map or right after
    [Init], and moves by the transitions that do not panic. *)
Inductive reachable : World -> Prop :=
| reach_boot : reachable boot
| reach_Init : reachable (Init boot)
| reach_step w clock l w' :
    reachable w -> step clock l w = Ok w' -> reachable w'.

End job.

(** *** Invariants of the process *)

(** The phases of the loop of [run]: the ticker exists. *)
Definition running_phase (p : Phase) : bool :=
  match p with
  | AtTick _ | AtDo _ _ | AtSelfStop (Some _) => true
  | _ => false
  end.

(** How many transitions a job that never reaches the loop has left. *)
Definition phase_rank (p : Phase) : nat :=
  match p with
  | AtEntry => 3
  | AtWait _ => 2
  | AtSelfStop None => 1
  | Returned => 0
  | _ => 4
  end.

Definition pc_of (w : World) (g : nat) : option Phase := pc <$> gos w !! g.

Record inv (w : World) : Prop := MkInv {
  reg_live : forall i a, lookup_reg w i = Some a ->
    exists s, heap w !! a = Some s /\ id s = i /\ running s = true;
  live_reg : forall a s, heap w !! a = Some s -> running s = true ->
    lookup_reg w (id s) = Some a;
  live_open : forall a s, heap w !! a = Some s ->
    (stopChan s = ChanOpen <-> running s = true);
  gos_alloc : forall g go, gos w !! g = Some go -> is_Some (heap w !! self go);
  returned_stopped : forall g go s, gos w !! g = Some go -> pc go = Returned ->
    heap w !! self go = Some s -> running s = false;
  bad_unit_idle : forall g go s, gos w !! g = Some go ->
    heap w !! self go = Some s -> repeat_interval (config s) = None ->
    running_phase (pc go) = false;
  senders_valid : forall a req, (a, req) ∈ sent w ->
    exists s, heap w !! a = Some s /\ repeat_interval (config s) <> None;
  gos_self : length (gos w) = length (heap w) /\
    forall g go, gos w !! g = Some go -> self go = g
}.

(** Goroutine [g] taking the transitions for the events [evs], one
    after the other, with no other transition in between. *)
Fixpoint run_events `{GoLib} (clock : nat -> string) (g : nat)
    (evs : list Event) (w : World) : Outcome :=
  match evs with
  | [] => Ok w
  | ev :: evs =>
      match run_step clock g ev w with
      | Ok w' => run_events clock g evs w'
      | o => o
      end
  end.

(** A response handled to the end: the transition on the response and,
    when the job then stands at its own [StopScheduler] call, that call. *)
Definition handle_response `{GoLib} (clock : nat -> string) (g : nat)
    (StatusCode : Z) (body : string) (w : World) : Outcome :=
  match run_step clock g (Responded StatusCode body) w with
  | Ok w1 =>
      match pc_of w1 g with
      | Some (AtSelfStop _) => run_step clock g LockAcquired w1
      | _ => Ok w1
      end
  | o => o
  end.

End scheduler.

(** ** An executable instance of the library interface

    The properties below hold for every instance of [GoLib].  To run the
    model on concrete inputs, [sample.lib] implements the interface for
    the inputs used in the examples: instants are computed in UTC,
    [ToUpper] maps the ASCII letters, the URL functions split a URL
    into its components without decoding percent escapes or validating
    the host, and the texts of the time-parsing errors are shortened. *)

Module sample.

Import golib.

Definition digit (c : ascii) : option Z :=
  let n := Z.of_N (N_of_ascii c) in
  if (48 <=? n) && (n <=? 57) then Some (n - 48) else None.

(** Two digits, as [getnum(value, true)] reads them. *)
Definition two_digits (s : list ascii) : option (Z * list ascii) :=
  match s with
  | a :: b :: r =>
      match digit a, digit b with
      | Some x, Some y => Some (10 * x + y, r)
      | _, _ => None
      end
  | _ => None
  end.

(** One or two digits, as [getnum(value, false)] reads them. *)
Definition some_digits (s : list ascii) : option (Z * list ascii) :=
  match two_digits s with
  | Some r => Some r
  | None =>
      match s with
      | a :: r => (fun x => (x, r)) <$> digit a
      | [] => None
      end
  end.

Definition sep (c : ascii) (s : list ascii) : option (list ascii) :=
  match s with
  | x :: r => if Ascii.eqb x c then Some r else None
  | [] => None
  end.

Definition is_leap (y : Z) : bool :=
  (y mod 4 =? 0) && (negb (y mod 100 =? 0) || (y mod 400 =? 0)).

Definition daysIn (m y : Z) : Z :=
  if m =? 2 then (if is_leap y then 29 else 28)
  else if (m =? 4) || (m =? 6) || (m =? 9) || (m =? 11) then 30
  else 31.

(** Days from 1970-01-01 to the given civil date. *)
Definition days_from_civil (y m d : Z) : Z :=
  let y' := if m <=? 2 then y - 1 else y in
  let era := y' / 400 in
  let yoe := y' - era * 400 in
  let mp := (m + 9) mod 12 in
  let doy := (153 * mp + 2) / 5 + d - 1 in
  let doe := yoe * 365 + yoe / 4 - yoe / 100 + doy in
  era * 146097 + doe - 719468.

(** The fraction of a second that may follow the seconds. *)
Fixpoint fraction (s : list ascii) (scale acc : Z) : option Z :=
  match s with
  | [] => Some (acc * scale)
  | c :: r =>
      match digit c with
      | Some x =>
          if scale =? 1 then fraction r 1 acc
          else fraction r (scale / 10) (10 * acc + x)
      | None => None
      end
  end.

Definition tail_nanos (s : list ascii) : option Z :=
  match s with
  | [] => Some 0
  | c :: d :: r =>
      if (Ascii.eqb c "." || Ascii.eqb c ",") && bool_decide (is_Some (digit d))
      then fraction (d :: r) 1000000000 0
      else None
  | _ => None
  end.

Definition parse_value (s : list ascii) : Res Z :=
  let parsed :=
    y12 ← two_digits s;
    y34 ← two_digits y12.2;
    r ← sep "-" y34.2;
    mo ← two_digits r;
    r ← sep "-" mo.2;
    da ← two_digits r;
    r ← sep " " da.2;
    ho ← some_digits r;
    r ← sep ":" ho.2;
    mi ← two_digits r;
    r ← sep ":" mi.2;
    se ← two_digits r;
    ns ← tail_nanos se.2;
    Some (100 * y12.1 + y34.1, mo.1, da.1, ho.1, mi.1, se.1, ns) in
  match parsed with
  | None => Fail "parsing time: cannot parse"
  | Some (y, mo, da, ho, mi, se, ns) =>
      if (mo <? 1) || (12 <? mo) then Fail "parsing time: month out of range"
      else if 24 <=? ho then Fail "parsing time: hour out of range"
      else if 60 <=? mi then Fail "parsing time: minute out of range"
      else if 60 <=? se then Fail "parsing time: second out of range"
      else if (da <? 1) || (daysIn mo y <? da)
      then Fail "parsing time: day out of range"
      else Val ((((days_from_civil y mo da * 24 + ho) * 60 + mi) * 60 + se)
                * Second + ns)
  end.

Definition ParseInLocation (layout value : string) : Res Z :=
  if String.eqb layout "2006-01-02 15:04:05"
  then parse_value (list_ascii_of_string value)
  else Fail "layout outside the sample".

(** [fmtFrac]: the digits of [v mod 10^prec] without trailing zeros. *)
Fixpoint fmtFrac (prec : nat) (v : Z) (acc : string) : string * Z :=
  match prec with
  | O => (if String.eqb acc "" then "" else "." +:+ acc, v)
  | S p =>
      let digit := v mod 10 in
      fmtFrac p (v / 10)
        (if (digit =? 0) && String.eqb acc "" then "" else pretty digit +:+ acc)
  end.

(** [func (d Duration) String() string] *)
Definition Duration_String (d : Z) : string :=
  let u := Z.abs d in
  let body :=
    if u <? Second then
      if u =? 0 then "0s"
      else if u <? 1000 then pretty u +:+ "ns"
      else if u <? 1000000 then
        let '(f, v) := fmtFrac 3 u "" in pretty v +:+ f +:+ "µs"
      else let '(f, v) := fmtFrac 6 u "" in pretty v +:+ f +:+ "ms"
    else
      let '(f, v) := fmtFrac 9 u "" in
      let secs := pretty (v mod 60) +:+ f +:+ "s" in
      let mins := v / 60 in
      if 0 <? mins then
        let hours := mins / 60 in
        (if 0 <? hours then pretty hours +:+ "h" else "")
          +:+ pretty (mins mod 60) +:+ "m" +:+ secs
      else secs in
  if (d <? 0) && negb (u =? 0) then "-" +:+ body else body.

Definition upper_ascii (c : ascii) : ascii :=
  let n := N_of_ascii c in
  if ((97 <=? n) && (n <=? 122))%N then ascii_of_N (n - 32) else c.

Definition lower_ascii (c : ascii) : ascii :=
  let n := N_of_ascii c in
  if ((65 <=? n) && (n <=? 90))%N then ascii_of_N (n + 32) else c.

Fixpoint map_string (f : ascii -> ascii) (s : string) : string :=
  match s with
  | EmptyString => EmptyString
  | String c r => String (f c) (map_string f r)
  end.

Definition ToUpper (s : string) : string := map_string upper_ascii s.

(** [strings.Cut(s, sep)] for a one-byte separator. *)
Fixpoint Cut (c : ascii) (s : string) : option (string * string) :=
  match s with
  | EmptyString => None
  | String x r =>
      if Ascii.eqb x c then Some (EmptyString, r)
      else (fun p => (String x p.1, p.2)) <$> Cut c r
  end.

Fixpoint has_ctl (s : string) : bool :=
  match s with
  | EmptyString => false
  | String c r =>
      let n := N_of_ascii c in ((n <? 32) || (n =? 127))%N || has_ctl r
  end.

Definition is_letter (c : ascii) : bool :=
  let n := N_of_ascii c in
  ((97 <=? n) && (n <=? 122) || (65 <=? n) && (n <=? 90))%N.

Definition is_scheme_mark (c : ascii) : bool :=
  json.isDigit c || Ascii.eqb c "+" || Ascii.eqb c "-" || Ascii.eqb c ".".

(** [getScheme]: the scheme and the rest, or the missing-scheme error. *)
Fixpoint getScheme (whole s scheme : string) (first : bool)
  : Res (string * string) :=
  match s with
  | EmptyString => Val (EmptyString, whole)
  | String c r =>
      if is_letter c then getScheme whole r (scheme +:+ String c "") false
      else if is_scheme_mark c then
        (if first then Val (EmptyString, whole)
         else getScheme whole r (scheme +:+ String c "") false)
      else if Ascii.eqb c ":" then
        (if first then Fail "missing protocol scheme" else Val (scheme, r))
      else Val (EmptyString, whole)
  end.

Definition starts_with (p s : string) : bool := String.prefix p s.

Definition with_query (rest : string) : string * bool * string :=
  match Cut "?" rest with
  | None => (rest, false, "")
  | Some (before, after) =>
      if String.eqb after "" then (before, true, "") else (before, false, after)
  end.

Definition split_userinfo (authority : string)
  : option (string * option string) * string :=
  match http.LastIndex authority "@" with
  | Z.neg _ => (None, authority)
  | i =>
      let info := String.substring 0 (Z.to_nat i) authority in
      let host := String.substring (Z.to_nat i + 1)
                    (String.length authority) authority in
      match Cut ":" info with
      | None => (Some (info, None), host)
      | Some (u, pw) => (Some (u, Some pw), host)
      end
  end.

(** A text between double quotes. *)
Definition in_quotes (s : string) : string :=
  String json.dquote (s +:+ String json.dquote "").

Definition parse_noscheme (err_prefix : string) (u : string) : Res URL :=
  if has_ctl u then
    Fail (err_prefix +:+ "net/url: invalid control character in URL")
  else if String.eqb u "*" then
    Val (MkURL "" "" None "" "*" "" false false "" "" "")
  else
    match getScheme u u "" true with
    | Fail e => Fail (err_prefix +:+ e)
    | Val (scheme, rest) =>
        let scheme := map_string lower_ascii scheme in
        let '(rest, force, query) := with_query rest in
        if negb (starts_with "/" rest) && negb (String.eqb scheme "") then
          Val (MkURL scheme rest None "" "" "" false force query "" "")
        else if negb (starts_with "/" rest)
                && bool_decide (is_Some (Cut ":" (default (rest, "") (Cut "/" rest)).1))
        then Fail (err_prefix +:+ "first path segment in URL cannot contain colon")
        else if (negb (String.eqb scheme "") || negb (starts_with "///" rest))
                && starts_with "//" rest then
          let after := String.substring 2 (String.length rest) rest in
          let '(authority, path) :=
            match Cut "/" after with
            | None => (after, "")
            | Some (a, p) => (a, "/" +:+ p)
            end in
          let '(user, host) := split_userinfo authority in
          Val (MkURL scheme "" user host path "" false force query "" "")
        else Val (MkURL scheme "" None "" rest "" false force query "" "")
    end.

Definition Parse (rawURL : string) : Res URL :=
  let '(u, frag) := default (rawURL, "") (Cut "#" rawURL) in
  match parse_noscheme ("parse " +:+ in_quotes u +:+ ": ") u with
  | Fail e => Fail e
  | Val url =>
      Val (MkURL (Scheme url) (Opaque url) (User url) (Host url) (Path url)
             (RawPath url) (OmitHost url) (ForceQuery url) (RawQuery url)
             frag "")
  end.

Definition userinfo_String (ui : string * option string) : string :=
  match ui.2 with
  | None => ui.1
  | Some pw => ui.1 +:+ ":" +:+ pw
  end.

(** [func (u *URL) String() string] *)
Definition URL_String (u : URL) : string :=
  let scheme := if String.eqb (Scheme u) "" then "" else Scheme u +:+ ":" in
  let body :=
    if negb (String.eqb (Opaque u) "") then Opaque u
    else
      let authority :=
        if negb (String.eqb (Scheme u) "") || negb (String.eqb (Host u) "")
           || bool_decide (is_Some (User u)) then
          if OmitHost u && String.eqb (Host u) ""
             && negb (bool_decide (is_Some (User u))) then ""
          else
            (if negb (String.eqb (Host u) "") || negb (String.eqb (Path u) "")
                || bool_decide (is_Some (User u)) then "//" else "")
            +:+ match User u with
                | Some ui => userinfo_String ui +:+ "@"
                | None => ""
                end
            +:+ Host u
        else "" in
      let slash :=
        if negb (String.eqb (Path u) "") && negb (starts_with "/" (Path u))
           && negb (String.eqb (Host u) "") then "/" else "" in
      let dot :=
        if String.eqb (scheme +:+ authority +:+ slash) ""
           && bool_decide (is_Some (Cut ":" (default (Path u, "") (Cut "/" (Path u))).1))
        then "./" else "" in
      authority +:+ slash +:+ dot +:+ Path u in
  scheme +:+ body
    +:+ (if ForceQuery u || negb (String.eqb (RawQuery u) "")
         then "?" +:+ RawQuery u else "")
    +:+ (if String.eqb (Fragment u) "" then "" else "#" +:+ Fragment u).

Definition lib : GoLib :=
  MkGoLib ParseInLocation Duration_String ToUpper Parse URL_String.

(** *** Sample inputs *)

Import scheduler.

(** Numbered calls of [logger.AddLog], all at the same clock reading. *)
Definition numbered_calls (n : nat) : list (string * string) :=
  map (fun k => ("12:00:00", pretty k)) (seq 0 n).

(** A text with each apostrophe replaced by a double quote. *)
Definition quoted (s : string) : string :=
  map_string (fun c => if Ascii.eqb c "'" then json.dquote else c) s.

Definition noon : nat -> string := fun _ => "12:00:00".

(** The configuration of the end-to-end example of the README. *)
Definition echo_cfg : SchedulerConfig :=
  MkConfig "09:30:00" 1 "s" "http://localhost:8080/fake-server" "GET"
    (quoted "{'k':'v'}").

(** The outcome of a sequence of transitions, all at the same clock
    reading; a transition that is not [Ok] ends the sequence. *)
Fixpoint play (ls : list Label) (w : World) : Outcome :=
  match ls with
  | [] => Ok w
  | l :: ls =>
      match step (lib := lib) noon l w with
      | Ok w' => play ls w'
      | o => o
      end
  end.

Definition world_after (ls : list Label) : World :=
  match play ls (Init boot) with
  | Ok w => w
  | _ => boot
  end.

(** One job registered under the identifier [job]. *)
Definition one_job : World := world_after [CallStart "job" echo_cfg].

(** 10:00:00 on 2026-10-31, in nanoseconds since the epoch. *)
Definition ten : Z := 1793440800000000000.

(** The same job up to its wait, up to its loop, and up to its first
    request. *)
Definition to_wait : list Label :=
  [CallStart "job" echo_cfg; Run 0 (Scheduled "2026-10-31" ten)].
Definition to_loop : list Label := to_wait ++ [Run 0 TimerFired].
Definition to_flight : list Label := to_loop ++ [Run 0 TimerFired].

(** The same configuration with a repeat unit the code does not
    know, with a repeat value of zero, and with a number of hours whose
    nanoseconds do not fit in an [int64]. *)
Definition bad_unit_cfg : SchedulerConfig :=
  MkConfig "09:30:00" 1 "d" "http://localhost:8080/fake-server" "GET"
    (quoted "{'k':'v'}").
Definition zero_cfg : SchedulerConfig :=
  MkConfig "09:30:00" 0 "s" "http://localhost:8080/fake-server" "GET"
    (quoted "{'k':'v'}").
Definition huge_cfg : SchedulerConfig :=
  MkConfig "09:30:00" 2562048 "h" "http://localhost:8080/fake-server" "GET"
    (quoted "{'k':'v'}").

(** A job started with [cfg] whose wait has just expired. *)
Definition wait_expires (cfg : SchedulerConfig) : list Label :=
  [CallStart "job" cfg; Run 0 (Scheduled "2026-10-31" ten); Run 0 TimerFired].





Definition bad_unit_waiting : World :=
  world_after [CallStart "job" bad_unit_cfg; Run 0 (Scheduled "2026-10-31" ten)].

Definition in_flight : World := world_after to_flight.

End sample.

(** ** Package [handler] and [func main]

    The callers of the registry.  What the network hands to a handler is
    an argument of its embedding: the outcome of [Decode] on the request
    body, or of [io.ReadAll]. *)

Module handler.

Import golib.

(** [type Config struct], the decoded body of a start request. *)
Record Config : Type := MkRequestConfig {
  ID : string;
  StartTime : string;
  RepeatValue : Z;
  RepeatUnit : string;
  APIURL : string;
  HTTPMethod : string;
  Payload : string
}.

Definition StatusBadRequest : Z := 400.
Definition StatusInternalServerError : Z := 500.

(** What a handler has done to its [http.ResponseWriter]: the status
    once the header is written, the header fields set before that, and
    the body. *)
Record ResponseWriter : Type := MkResponse {
  status : option Z;
  header : gmap string (list string);
  body : string
}.

(** The writer a handler is called with. *)
Definition fresh : ResponseWriter := MkResponse None ∅ "".

(** [w.Header().Set(key, value)]: without effect on the response once
    the header is written. *)
Definition ResponseHeader_Set (key value : string) (rw : ResponseWriter) : ResponseWriter :=
  match status rw with
  | Some _ => rw
  | None => MkResponse None (<[key := [value]]> (header rw)) (body rw)
  end.

(** [w.WriteHeader(code)]: only the first call counts. *)
Definition WriteHeader (code : Z) (rw : ResponseWriter) : ResponseWriter :=
  match status rw with
  | Some _ => rw
  | None => MkResponse (Some code) (header rw) (body rw)
  end.

(** [w.Write(data)]: writes the header with status 200 if it is not
    written yet. *)
Definition Write (data : string) (rw : ResponseWriter) : ResponseWriter :=
  let rw := WriteHeader http.StatusOK rw in
  MkResponse (status rw) (header rw) (body rw +:+ data).

Definition newline : string := String "010" "".

(** [http.Error(w, error, code)] *)
Definition Error (error : string) (code : Z) (rw : ResponseWriter) : ResponseWriter :=
  let rw := ResponseHeader_Set "Content-Type" "text/plain; charset=utf-8" rw in
  let rw := ResponseHeader_Set "X-Content-Type-Options" "nosniff" rw in
  Write (error +:+ newline) (WriteHeader code rw).

(** The two answers the handlers give: a text with status 200, and
    what [http.Error] leaves in a fresh writer. *)
Definition ok_response (text : string) : ResponseWriter :=
  MkResponse (Some 200) ∅ text.

Definition error_response (code : Z) (text : string) : ResponseWriter :=
  MkResponse (Some code)
    {["Content-Type" := ["text/plain; charset=utf-8"];
      "X-Content-Type-Options" := ["nosniff"]]}
    (text +:+ newline).

Definition text_bad_body : string := "잘못된 요청 본문입니다.".
Definition text_started : string := "스케줄러가 시작되었습니다.".
Definition text_stopped : string := "스케줄러가 중지되었습니다.".
Definition text_unreadable : string := "요청 본문을 읽을 수 없습니다.".

(** A handler that has returned, with the state it leaves, or one that
    panicked: [net/http] recovers the panic and drops the connection. *)
Inductive Served : Type :=
| Answer (w : scheduler.World) (rw : ResponseWriter)
| Crash (msg : string).

(** The end of [StartHandler] and [StopHandler]: status 200 and a fixed
    text once the registry function has returned.  [Disabled] is not an
    outcome of the registry functions. *)
Definition answer_ok (o : scheduler.Outcome) (text : string) (rw : ResponseWriter)
  : Served :=
  match o with
  | scheduler.Ok w' => Answer w' (Write text (WriteHeader http.StatusOK rw))
  | scheduler.Panic msg => Crash msg
  | scheduler.Disabled => Crash ""
  end.

(** The [scheduler.SchedulerConfig] literal of [StartHandler]. *)
Definition to_SchedulerConfig (config : Config) : scheduler.SchedulerConfig :=
  scheduler.MkConfig (StartTime config) (RepeatValue config) (RepeatUnit config)
    (APIURL config) (HTTPMethod config) (Payload config).

(** [func StartHandler]; [decoded] is what
    [json.NewDecoder(r.Body).Decode(&config)] returned. *)
Definition StartHandler (clock : nat -> string) (decoded : Res Config)
    (rw : ResponseWriter) (w : scheduler.World) : Served :=
  match decoded with
  | Fail _ => Answer w (Error text_bad_body StatusBadRequest rw)
  | Val config =>
      answer_ok
        (scheduler.StartScheduler clock (ID config) (to_SchedulerConfig config) w)
        text_started rw
  end.

(** [func StopHandler]; [reqBody["id"]] is the empty string when the
    key is missing. *)
Definition StopHandler (clock : nat -> string)
    (decoded : Res (gmap string string)) (rw : ResponseWriter)
    (w : scheduler.World) : Served :=
  match decoded with
  | Fail _ => Answer w (Error text_bad_body StatusBadRequest rw)
  | Val reqBody =>
      let id := default "" (reqBody !! "id") in
      answer_ok (scheduler.StopScheduler clock id w) text_stopped rw
  end.

(** [func LogsHandler]; [Encode] is the JSON text [json.Encoder] writes
    for a slice of log entries, the line feed included. *)
Definition LogsHandler (Encode : list logger.LogEntry -> string)
    (rw : ResponseWriter) (w : scheduler.World) : ResponseWriter :=
  Write (Encode (logger.GetLogs (scheduler.logs w)))
    (ResponseHeader_Set "Content-Type" "application/json" rw).

(** [func FakeServerHandler]; [read] is what [io.ReadAll(r.Body)]
    returned. *)
Definition FakeServerHandler (read : Res string) (rw : ResponseWriter)
  : ResponseWriter :=
  match read with
  | Fail _ => Error text_unreadable StatusInternalServerError rw
  | Val data => Write data (ResponseHeader_Set "Content-Type" "application/json" rw)
  end.

(** The status a client sees. *)
Definition StatusCode (rw : ResponseWriter) : Z := default http.StatusOK (status rw).

(** The fake server answering the request of a job: a request without a
    body is read as the empty text. *)
Definition fake_server (req : http.Request) : ResponseWriter :=
  FakeServerHandler (Val (default "" (http.Body req))) fresh.

(** *** [func main]

    [logger.Init] and [handler.Init] have empty bodies. *)
Definition logger_Init (w : scheduler.World) : scheduler.World := w.
Definition handler_Init (w : scheduler.World) : scheduler.World := w.

(** The state in which [main] starts to serve. *)
Definition main : scheduler.World := handler_Init (logger_Init scheduler.boot).

(** A request to one of the four endpoints [main] registers. *)
Inductive Call : Type :=
| PostStart (decoded : Res Config)
| PostStop (decoded : Res (gmap string string))
| GetLogs
| FakeServer (read : Res string).

Definition serve (Encode : list logger.LogEntry -> string) (clock : nat -> string)
    (c : Call) (w : scheduler.World) : Served :=
  match c with
  | PostStart decoded => StartHandler clock decoded fresh w
  | PostStop decoded => StopHandler clock decoded fresh w
  | GetLogs => Answer w (LogsHandler Encode fresh w)
  | FakeServer read => Answer w (FakeServerHandler read fresh)
  end.

(** The states of the process that [main] builds: requests are served
    and jobs take their transitions. *)
Inductive serving `{GoLib} (Encode : list logger.LogEntry -> string)
  : scheduler.World -> Prop :=
| serving_main : serving Encode main
| serving_request w clock c w' rw :
    serving Encode w -> serve Encode clock c w = Answer w' rw ->
    serving Encode w'
| serving_job w clock g ev w' :
    serving Encode w -> scheduler.run_step clock g ev w = scheduler.Ok w' ->
    serving Encode w'.

End handler.

(** ** The requests a job has sent *)

Module trace.

Import golib scheduler.

(** The phases of [run] before its loop. *)
Definition before_loop (p : Phase) : bool :=
  match p with
  | AtEntry | AtWait _ | AtSelfStop None => true
  | _ => false
  end.

Section trace.

Context {lib : GoLib}.

(** Every request in [sent] is the one [callAPI] builds from the
    configuration of its sender, and its sender has reached the loop. *)
Record sent_inv (w : World) : Prop := MkSentInv {
  sent_built : forall a req, (a, req) ∈ sent w ->
    exists s, heap w !! a = Some s /\ (callAPI_request s).2 = Some req;
  sent_started : forall a req go, (a, req) ∈ sent w ->
    gos w !! a = Some go -> before_loop (pc go) = false
}.

End trace.

End trace.

(** ** More sample runs *)

Module scenario.

Import golib scheduler sample.

(** The sample job at its wait. *)
Definition waiting : World := world_after to_wait.

(** A start time that is not of the form [15:04:05]. *)
Definition bad_time_cfg : SchedulerConfig :=
  MkConfig "9:30" 1 "s" "http://localhost:8080/fake-server" "GET"
    (quoted "{'k':'v'}").

Definition bad_time_started : World :=
  world_after [CallStart "job" bad_time_cfg].

(** A second configuration for the identifier [job]. *)
Definition hourly_cfg : SchedulerConfig :=
  MkConfig "09:30:00" 2 "h" "http://localhost:8080/fake-server" "POST"
    (quoted "{'k':'v'}").

(** While the first request of the sample job is in flight, the job is
    stopped and another one is started under its identifier; then the
    response, with status 200, arrives. *)
Definition taken_over : World :=
  world_after
    (to_flight ++
     [CallStop "job"; CallStart "job" hourly_cfg; Run 0 (Responded 200 "")]).

(** The sample job with method [POST], at its first request. *)
Definition post_cfg : SchedulerConfig :=
  MkConfig "09:30:00" 1 "s" "http://localhost:8080/fake-server" "post"
    (quoted "{'k':'v'}").

Definition post_in_flight : World :=
  world_after (wait_expires post_cfg ++ [Run 0 TimerFired]).

End scenario.

(** ** Reading back what [callAPI] encodes and decodes *)

Module encoding.

Import golib.

(** The bytes an escaped query component is made of: the unreserved
    characters, the percent sign and the plus sign. *)
Definition query_safe (c : ascii) : bool :=
  is_alnum c ||
  match c with
  | "-" | "_" | "." | "~" | "%" | "+" => true
  | _ => false
  end%char.

(** Whether byte [c] occurs in [s]. *)
Fixpoint occurs (c : ascii) (s : string) : bool :=
  match s with
  | EmptyString => false
  | String x r => Ascii.eqb x c || occurs c r
  end.

(** [ishex] and [unhex] of [net/url]. *)
Definition ishex (c : ascii) : bool :=
  let n := byte_of c in
  ((48 <=? n) && (n <=? 57) || (97 <=? n) && (n <=? 102)
   || (65 <=? n) && (n <=? 70))%N.

Definition unhex (c : ascii) : N :=
  let n := byte_of c in
  if ((48 <=? n) && (n <=? 57))%N then (n - 48)%N
  else if ((97 <=? n) && (n <=? 102))%N then (n - 97 + 10)%N
  else if ((65 <=? n) && (n <=? 70))%N then (n - 65 + 10)%N
  else 0%N.

(** [url.QueryUnescape]: the inverse of [QueryEscape]; [None] for a
    percent sign that is not followed by two hexadecimal digits. *)
Fixpoint QueryUnescape (s : string) : option string :=
  match s with
  | EmptyString => Some EmptyString
  | String c r =>
      if Ascii.eqb c "%" then
        match r with
        | String h1 (String h2 r') =>
            if ishex h1 && ishex h2 then
              String (ascii_of_N (unhex h1 * 16 + unhex h2)) <$> QueryUnescape r'
            else None
        | _ => None
        end
      else if Ascii.eqb c "+" then String " " <$> QueryUnescape r
      else String c <$> QueryUnescape r
  end.

(** One [key=value] pair as [Encode] writes it, and the keys [Encode]
    sorts for a payload. *)
Definition pair_text (kv : string * string) : string :=
  QueryEscape kv.1 +:+ "=" +:+ QueryEscape kv.2.

Definition sorted_keys (m : gmap string string) : list string :=
  merge_sort string_le (map fst (map_to_list ((fun v => [v]) <$> m))).

(** A byte that stands for itself between the quotes of a JSON string
    literal: printable ASCII other than the quote and the backslash. *)
Definition plain_char (c : ascii) : bool :=
  let n := byte_of c in
  ((32 <=? n) && (n <? 128) && negb (n =? 34) && negb (n =? 92))%N.

Definition plain (s : string) : bool :=
  forallb plain_char (list_ascii_of_string s).

(** The JSON text of an object whose members are strings, written
    without white space: [{"k1":"v1","k2":"v2"}]. *)
Definition literal (s : string) : string :=
  String json.dquote (s +:+ String json.dquote "").

Definition member (kv : string * string) : string :=
  literal kv.1 +:+ ":" +:+ literal kv.2.

Fixpoint join_comma (l : list string) : string :=
  match l with
  | [] => ""
  | [x] => x
  | x :: r => x +:+ "," +:+ join_comma r
  end.

Definition object (kvs : list (string * string)) : string :=
  "{" +:+ join_comma (map member kvs) +:+ "}".

(** The mapping such an object stands for: a later member with the same
    key replaces an earlier one. *)
Definition members (kvs : list (string * string)) : gmap string string :=
  foldl (fun m kv => <[kv.1 := kv.2]> m) ∅ kvs.

End encoding.

(** * Properties *)

(** ** The log *)

Module logger_facts.

Import logger.

Lemma AddLog_unfold now message logs :
  AddLog now message logs =
  if (cap <? length logs + 1)%nat
  then drop 1 (logs ++ [MkLogEntry now message])
  else logs ++ [MkLogEntry now message].
Proof. unfold AddLog. rewrite length_app. reflexivity. Qed.

(** One call, on a log within the cap: the new entry goes last and the
    log is trimmed from the front to the cap. *)
Lemma AddLog_drop now message logs :
  (length logs <= cap)%nat ->
  AddLog now message logs =
  drop (length logs + 1 - cap) (logs ++ [MkLogEntry now message]).
Proof.
  intros Hle. rewrite AddLog_unfold. unfold cap in *.
  destruct (Nat.ltb_spec 100 (length logs + 1)) as [Hlt | Hge].
  - replace (length logs + 1 - 100)%nat with 1%nat by lia. done.
  - replace (length logs + 1 - 100)%nat with 0%nat by lia. done.
Qed.

Lemma AddLog_length now message logs :
  (length logs <= cap)%nat -> (length (AddLog now message logs) <= cap)%nat.
Proof.
  intros Hle. rewrite AddLog_drop by done.
  rewrite length_drop, length_app. simpl. unfold cap in *. lia.
Qed.

(** Any number of calls: what is left is the tail of everything that
    was ever in the log. *)
Lemma AddLogs_drop calls : forall logs,
  (length logs <= cap)%nat ->
  AddLogs calls logs =
  drop (length logs + length calls - cap) (logs ++ entries calls).
Proof.
  induction calls as [| [now message] calls IH]; intros logs Hle.
  - unfold AddLogs, entries. simpl. rewrite app_nil_r.
    replace (length logs + 0 - cap)%nat with 0%nat by lia. done.
  - change (AddLogs ((now, message) :: calls) logs)
      with (AddLogs calls (AddLog now message logs)).
    rewrite IH by (by apply AddLog_length).
    rewrite AddLog_drop by done.
    set (k := (length logs + 1 - cap)%nat).
    assert (Hk : (k <= length (logs ++ [MkLogEntry now message]))%nat)
      by (rewrite length_app; simpl; lia).
    rewrite <- drop_app_le by done.
    rewrite drop_drop, length_drop, length_app. simpl.
    change (entries ((now, message) :: calls))
      with (MkLogEntry now message :: entries calls).
    rewrite <- (assoc_L (++)). simpl. f_equal. unfold k, cap in *. lia.
Qed.

Lemma AddLogs_length calls logs :
  (length logs <= cap)%nat -> (length (AddLogs calls logs) <= cap)%nat.
Proof.
  intros Hle. rewrite AddLogs_drop by done.
  rewrite length_drop, length_app. unfold entries. rewrite length_map. lia.
Qed.

(** C3. Whatever calls of [AddLog] are made on the empty log of a fresh
    process, the log never holds more than 100 entries; after 150 calls
    it holds exactly the entries of the last 100 calls (the first 50
    are gone), in the order in which they were added. *)
Theorem log_keeps_most_recent_100 :
  (forall calls, (length (AddLogs calls []) <= 100)%nat) /\
  (forall calls, length calls = 150%nat ->
     AddLogs calls [] = drop 50 (entries calls) /\
     length (AddLogs calls []) = 100%nat).
Proof.
  split.
  - intros calls. apply (AddLogs_length calls []). simpl. unfold cap. lia.
  - intros calls Hlen.
    assert (Heq : AddLogs calls [] = drop 50 (entries calls)).
    { rewrite AddLogs_drop by (simpl; unfold cap; lia).
      simpl. rewrite Hlen. done. }
    split; [done |].
    rewrite Heq, length_drop. unfold entries. rewrite length_map. lia.
Qed.

(** 150 numbered calls: the survivors are the calls 50 to 149. *)
Lemma log_keeps_most_recent_100_witness :
  length (sample.numbered_calls 150) = 150%nat /\
  AddLogs (sample.numbered_calls 150) [] = drop 50 (entries (sample.numbered_calls 150)) /\
  length (AddLogs (sample.numbered_calls 150) []) = 100%nat.
Proof.
  split; [reflexivity |].
  apply (proj2 log_keeps_most_recent_100 (sample.numbered_calls 150)). reflexivity.
Defined.

End logger_facts.

(** ** The decoder *)

Module json_facts.

Import json.


Lemma scan_decode_step d c : scan (decode_step d c) = scan_step (scan d) c.
Proof.
  unfold decode_step, decode_top, decode_elem.
  repeat case_match; reflexivity.
Qed.












End json_facts.

(** ** The registry and the job *)

Module scheduler_facts.

Import golib scheduler.

(** *** Strings and logs *)

Lemma append_inj_l (p a b : string) : p +:+ a = p +:+ b -> a = b.
Proof. induction p as [| c p IH]; simpl; intros Heq; [done | injection Heq; auto]. Qed.

Lemma AddLog_last now message l :
  last (logger.AddLog now message l) = Some (logger.MkLogEntry now message).
Proof.
  rewrite logger_facts.AddLog_unfold.
  destruct (Nat.ltb_spec logger.cap (length l + 1)) as [Hlt | _];
    [| apply last_snoc].
  destruct l as [| e l]; simpl in *; [unfold logger.cap in Hlt; lia |].
  apply last_snoc.
Qed.

(** *** The invariant is kept by every transition *)

Lemma inv_boot : inv boot.
Proof.
  by constructor; intros *; simpl; try set_solver.
Qed.

Lemma inv_Init w : inv w -> schedulers w = None -> inv (Init w).
Proof.
  intros [H1 H2 H3 H4 H5 H6 H7 H8] Hnil.
  constructor; unfold lookup_reg in *; simpl; eauto.
  - done.
  - intros a s Ha Hrun. specialize (H2 a s Ha Hrun). by rewrite Hnil in H2.
Qed.

Lemma inv_emit clock msgs w : inv w -> inv (emit clock msgs w).
Proof. intros [H1 H2 H3 H4 H5 H6 H7 H8]. by constructor. Qed.

Lemma inv_send a req w :
  inv w ->
  (exists s, heap w !! a = Some s /\ repeat_interval (config s) <> None) ->
  inv (send a req w).
Proof.
  intros [H1 H2 H3 H4 H5 H6 H7 H8] Hok. constructor; try done.
  simpl. intros b r [Hin | Hin]%elem_of_app; [by eapply H7 |].
  apply list_elem_of_singleton in Hin. by injection Hin as -> ->.
Qed.

Lemma lookup_set_pc g p w g' go' :
  gos (set_pc g p w) !! g' = Some go' ->
  exists go, gos w !! g' = Some go /\ self go' = self go /\
    ((g' = g /\ pc go' = p) \/ (g' <> g /\ pc go' = pc go)).
Proof.
  simpl. destruct (decide (g' = g)) as [-> | Hne].
  - rewrite list_lookup_alter_eq. destruct (gos w !! g) as [go |] eqn:Hg; [| done].
    simpl. intros [= <-]. exists go. simpl. eauto.
  - rewrite list_lookup_alter_ne by done. intros Hg. exists go'. eauto.
Qed.

Lemma inv_set_pc g p w :
  inv w ->
  (forall go s, gos w !! g = Some go -> heap w !! self go = Some s ->
     (p = Returned -> running s = false) /\
     (repeat_interval (config s) = None -> running_phase p = false)) ->
  inv (set_pc g p w).
Proof.
  intros [H1 H2 H3 H4 H5 H6 H7 H8] Hp. constructor; try done.
  - intros g' go' (go & Hg & Hself & _)%lookup_set_pc. rewrite Hself. eauto.
  - intros g' go' s (go & Hg & Hself & Hpc)%lookup_set_pc Hret Hs.
    rewrite Hself in Hs. destruct Hpc as [[-> Hpc] | [_ Hpc]].
    + apply (Hp go s Hg Hs). by rewrite <- Hpc.
    + apply (H5 g' go s Hg); [by rewrite <- Hpc | done].
  - intros g' go' s (go & Hg & Hself & Hpc)%lookup_set_pc Hs Hbad.
    rewrite Hself in Hs. destruct Hpc as [[-> Hpc] | [_ Hpc]]; rewrite Hpc.
    + by apply (Hp go s Hg Hs).
    + by apply (H6 g' go s Hg).
  - destruct H8 as [Hlen Hself]. split.
    + simpl. by rewrite length_alter.
    + intros g' go' (go & Hg & Hself' & _)%lookup_set_pc.
      rewrite Hself'. eauto.
Qed.
Lemma lookup_reg_Some w i a :
  lookup_reg w i = Some a -> exists m, schedulers w = Some m /\ m !! i = Some a.
Proof. unfold lookup_reg. destruct (schedulers w) as [m |]; [eauto | done]. Qed.

(** [StartScheduler] on a free identifier, with the map made. *)
Lemma StartScheduler_fresh clock i cfg w m :
  schedulers w = Some m -> m !! i = None ->
  StartScheduler clock i cfg w =
  Ok (MkWorld (Some (<[i := length (heap w)]> m))
        (heap w ++ [MkScheduler i ChanOpen true cfg])
        (gos w ++ [MkGo (length (heap w)) AtEntry]) (logs w) (sent w)).
Proof. intros Hm Hi. unfold StartScheduler, lookup_reg. by rewrite Hm, Hi. Qed.

Lemma StartScheduler_cases clock i cfg w o :
  StartScheduler clock i cfg w = o ->
  (exists a, lookup_reg w i = Some a /\ o = Ok (emit clock [msg_already_running i] w)) \/
  (schedulers w = None /\ o = Panic "assignment to entry in nil map") \/
  (exists m, schedulers w = Some m /\ m !! i = None /\
     o = Ok (MkWorld (Some (<[i := length (heap w)]> m))
               (heap w ++ [MkScheduler i ChanOpen true cfg])
               (gos w ++ [MkGo (length (heap w)) AtEntry]) (logs w) (sent w))).
Proof.
  intros <-. unfold StartScheduler, lookup_reg.
  destruct (schedulers w) as [m |] eqn:Hm; [| by right; left].
  destruct (m !! i) as [a |] eqn:Hi; [left; eauto |].
  right; right. eauto.
Qed.

Lemma inv_StartScheduler clock i cfg w w' :
  inv w -> StartScheduler clock i cfg w = Ok w' -> inv w'.
Proof.
  intros Hinv Hstart.
  destruct (StartScheduler_cases _ _ _ _ _ Hstart)
    as [(a & _ & Hw) | [[_ Hw] | (m & Hm & Hi & Hw)]]; [| done |].
  { injection Hw as ->. by apply inv_emit. }
  injection Hw as ->.
  destruct Hinv as [H1 H2 H3 H4 H5 H6 H7 H8].
  unfold lookup_reg in *. rewrite Hm in *.
  constructor; unfold lookup_reg; simpl.
  - intros j b Hj. destruct (decide (j = i)) as [-> | Hne].
    + rewrite lookup_insert_eq in Hj. injection Hj as <-.
      eexists. by rewrite list_lookup_middle.
    + rewrite lookup_insert_ne in Hj by done.
      destruct (H1 j b Hj) as (s & Hs & ?). exists s.
      by rewrite lookup_app_l by (by eapply lookup_lt_Some).
  - intros b s Hb Hrun. apply lookup_app_Some in Hb as [Hb | [Hge Hb]].
    + specialize (H2 b s Hb Hrun). simpl in H2.
      rewrite lookup_insert_ne; [done |].
      intros Heq. rewrite Heq in Hi. by rewrite Hi in H2.
    + apply list_lookup_singleton_Some in Hb as [Hz <-]. simpl.
      rewrite lookup_insert_eq. f_equal. lia.
  - intros b s Hb. apply lookup_app_Some in Hb as [Hb | [Hge Hb]]; [eauto |].
    by apply list_lookup_singleton_Some in Hb as [Hz <-].
  - intros g go Hg. apply lookup_app_Some in Hg as [Hg | [Hge Hg]].
    + destruct (H4 g go Hg) as [s Hs]. exists s.
      by rewrite lookup_app_l by (by eapply lookup_lt_Some).
    + apply list_lookup_singleton_Some in Hg as [Hz <-]. simpl.
      eexists. by rewrite list_lookup_middle.
  - intros g go s Hg Hret Hs. apply lookup_app_Some in Hg as [Hg | [Hge Hg]].
    + destruct (H4 g go Hg) as [s' Hs'].
      rewrite lookup_app_l in Hs by (by eapply lookup_lt_Some). eauto.
    + by apply list_lookup_singleton_Some in Hg as [Hz <-].
  - intros g go s Hg Hs Hbad. apply lookup_app_Some in Hg as [Hg | [Hge Hg]].
    + destruct (H4 g go Hg) as [s' Hs'].
      rewrite lookup_app_l in Hs by (by eapply lookup_lt_Some). eauto.
    + by apply list_lookup_singleton_Some in Hg as [Hz <-].
  - intros b req Hin. destruct (H7 b req Hin) as (s & Hs & Hok).
    exists s. by rewrite lookup_app_l by (by eapply lookup_lt_Some).
  - destruct H8 as [Hlen Hself]. split.
    + rewrite !length_app. simpl. lia.
    + intros g go Hg. apply lookup_app_Some in Hg as [Hg | [Hge Hg]]; [eauto |].
      apply list_lookup_singleton_Some in Hg as [Hz <-]. simpl. lia.
Qed.

Lemma lookup_stop (h : list Scheduler) a s b s' :
  h !! a = Some s -> <[a := stop_object s]> h !! b = Some s' ->
  exists s0, h !! b = Some s0 /\ config s' = config s0 /\ id s' = id s0 /\
    ((b = a /\ s' = stop_object s /\ s0 = s) \/ (b <> a /\ s' = s0)).
Proof.
  intros Ha Hb. destruct (decide (b = a)) as [-> | Hne].
  - rewrite list_lookup_insert_eq in Hb by (by eapply lookup_lt_Some).
    injection Hb as <-. exists s. eauto 10.
  - rewrite list_lookup_insert_ne in Hb by done. exists s'. eauto 10.
Qed.

(** The state after the branch of [StopScheduler] that stops a job. *)
Lemma inv_stop i a s w :
  inv w -> lookup_reg w i = Some a -> heap w !! a = Some s ->
  inv (MkWorld (delete i <$> schedulers w) (<[a := stop_object s]> (heap w))
         (gos w) (logs w) (sent w)).
Proof.
  intros [H1 H2 H3 H4 H5 H6 H7 H8] Hi Ha.
  destruct (lookup_reg_Some _ _ _ Hi) as (m & Hm & Hmi).
  destruct (H1 i a Hi) as (s0 & Hs0 & Hid & Hrun).
  assert (s0 = s) as -> by congruence.
  unfold lookup_reg in *. rewrite Hm in *. simpl in *.
  constructor; unfold lookup_reg; simpl.
  - intros j b [Hne Hj]%lookup_delete_Some.
    destruct (H1 j b Hj) as (sb & Hsb & Hidb & Hrunb). exists sb.
    rewrite list_lookup_insert_ne; [done |]. intros ->. congruence.
  - intros b s' Hb Hrun'.
    destruct (lookup_stop _ _ _ _ _ Ha Hb)
      as (sb & Hsb & _ & _ & [(-> & -> & ->) | [Hne ->]]); [done |].
    specialize (H2 b sb Hsb Hrun'). rewrite lookup_delete_ne; [done |].
    intros Heq. rewrite <- Heq in H2. congruence.
  - intros b s' Hb.
    destruct (lookup_stop _ _ _ _ _ Ha Hb)
      as (sb & Hsb & _ & _ & [(-> & -> & ->) | [Hne ->]]); [done | eauto].
  - intros g go Hg. apply lookup_lt_is_Some. rewrite length_insert.
    apply lookup_lt_is_Some. eauto.
  - intros g go s' Hg Hret Hb.
    destruct (lookup_stop _ _ _ _ _ Ha Hb)
      as (sb & Hsb & _ & _ & [(_ & -> & ->) | [Hne ->]]); [done | eauto].
  - intros g go s' Hg Hb Hbad.
    destruct (lookup_stop _ _ _ _ _ Ha Hb) as (sb & Hsb & Hcfg & _ & _).
    rewrite Hcfg in Hbad. eauto.
  - intros b req Hin. destruct (H7 b req Hin) as (sb & Hsb & Hok).
    destruct (decide (b = a)) as [-> | Hne].
    + exists (stop_object s).
      rewrite list_lookup_insert_eq by (by eapply lookup_lt_Some).
      split; [done |]. simpl. congruence.
    + exists sb. by rewrite list_lookup_insert_ne.
  - by rewrite length_insert.
Qed.

Lemma StopScheduler_absent clock i w :
  lookup_reg w i = None ->
  StopScheduler clock i w = Ok (emit clock [msg_not_found i] w).
Proof. intros Hi. unfold StopScheduler. by rewrite Hi. Qed.

(** On a registered identifier, [StopScheduler] takes its first
    branch: the invariant rules the other two out. *)
Lemma StopScheduler_present clock i a w :
  inv w -> lookup_reg w i = Some a ->
  exists s, heap w !! a = Some s /\ id s = i /\
    StopScheduler clock i w =
    Ok (emit clock [msg_stopped i]
          (MkWorld (delete i <$> schedulers w) (<[a := stop_object s]> (heap w))
             (gos w) (logs w) (sent w))).
Proof.
  intros Hinv Hi. destruct (reg_live _ Hinv i a Hi) as (s & Hs & Hid & Hrun).
  exists s. split; [done |]. split; [done |].
  unfold StopScheduler. rewrite Hi, Hs, Hrun.
  by rewrite (proj2 (live_open _ Hinv a s Hs) Hrun).
Qed.

Lemma inv_StopScheduler clock i w w' :
  inv w -> StopScheduler clock i w = Ok w' -> inv w'.
Proof.
  intros Hinv Hstop. destruct (lookup_reg w i) as [a |] eqn:Hi.
  - destruct (StopScheduler_present clock i a w Hinv Hi) as (s & Hs & _ & Heq).
    rewrite Heq in Hstop. injection Hstop as <-.
    apply inv_emit. by apply inv_stop.
  - rewrite StopScheduler_absent in Hstop by done. injection Hstop as <-.
    by apply inv_emit.
Qed.

(** Under the invariant [StopScheduler] does not panic. *)
Lemma StopScheduler_Ok clock i w :
  inv w -> exists w', StopScheduler clock i w = Ok w' /\ lookup_reg w' i = None.
Proof.
  intros Hinv. destruct (lookup_reg w i) as [a |] eqn:Hi.
  - destruct (StopScheduler_present clock i a w Hinv Hi) as (s & Hs & _ & Heq).
    eexists. split; [exact Heq |]. unfold lookup_reg. simpl.
    destruct (schedulers w); simpl; [apply lookup_delete_eq | done].
  - rewrite StopScheduler_absent by done. eauto.
Qed.

(** What the job's own call [StopScheduler(s.id)] does to its object:
    whoever holds the identifier by then, the object ends up stopped and
    the identifier free. *)
Lemma StopScheduler_self clock w w' a s :
  inv w -> heap w !! a = Some s -> StopScheduler clock (id s) w = Ok w' ->
  gos w' = gos w /\ sent w' = sent w /\ lookup_reg w' (id s) = None /\
  exists s', heap w' !! a = Some s' /\ config s' = config s /\ id s' = id s /\
    running s' = false /\ stopChan s' = ChanClosed.
Proof.
  intros Hinv Ha Hstop.
  assert (Hclosed : forall x, heap w !! a = Some x -> running x = false ->
                    stopChan x = ChanClosed).
  { intros x Hx Hrun. pose proof (live_open _ Hinv a x Hx) as Hopen.
    destruct (stopChan x); [| done]. rewrite (proj1 Hopen eq_refl) in Hrun. done. }
  destruct (lookup_reg w (id s)) as [b |] eqn:Hi.
  - destruct (StopScheduler_present clock _ b w Hinv Hi) as (sb & Hsb & Hidb & Heq).
    rewrite Heq in Hstop. injection Hstop as <-. simpl.
    split; [done |]. split; [done |]. split.
    { unfold lookup_reg. simpl.
      destruct (schedulers w); simpl; [apply lookup_delete_eq | done]. }
    destruct (decide (a = b)) as [-> | Hne].
    + assert (sb = s) as -> by congruence. exists (stop_object s).
      by rewrite list_lookup_insert_eq by (by eapply lookup_lt_Some).
    + exists s. rewrite list_lookup_insert_ne by done.
      assert (Hrun : running s = false).
      { destruct (running s) eqn:Hrun; [| done].
        pose proof (live_reg _ Hinv a s Ha Hrun). congruence. }
      eauto 10.
  - rewrite StopScheduler_absent in Hstop by done. injection Hstop as <-.
    simpl. split; [done |]. split; [done |]. split; [done |]. exists s.
    assert (Hrun : running s = false).
    { destruct (running s) eqn:Hrun; [| done].
      pose proof (live_reg _ Hinv a s Ha Hrun). congruence. }
    eauto 10.
Qed.

Section transitions.

Context {lib : GoLib}.

Lemma inv_run_step clock g ev w w' :
  inv w -> run_step clock g ev w = Ok w' -> inv w'.
Proof.
  intros Hinv. unfold run_step.
  destruct (gos w !! g) as [go |] eqn:Hg; [| done].
  destruct (heap w !! self go) as [s |] eqn:Hs; [| done].
  assert (Hvalid : forall p, pc go = p -> running_phase p = true ->
                   repeat_interval (config s) <> None).
  { intros p <- Hrun Hbad.
    rewrite (bad_unit_idle _ Hinv g go s Hg Hs Hbad) in Hrun. done. }
  destruct (pc go) as [| wd | resume | d | d req |] eqn:Hpc;
    destruct ev as [today now | | | | err | err | code body]; try done.
  - (* the entry of [run] *)
    unfold run_begin. destruct (time_ParseInLocation _ _) as [t | err];
      intros [= <-]; (apply inv_set_pc; [by apply inv_emit | done]).
  - (* the wait has expired *)
    unfold run_ticker.
    destruct (repeat_interval (config s)) as [ri |] eqn:Hri.
    + destruct (NewTicker ri) as [d |]; [| done]. intros [= <-].
      apply inv_set_pc; [by apply inv_emit |]. simpl.
      intros go' s' Hg' Hs'. assert (go' = go) as -> by congruence.
      assert (s' = s) as -> by congruence. split; [done | congruence].
    + intros [= <-]. apply inv_set_pc; [by apply inv_emit | done].
  - (* stopped while waiting *)
    destruct (stopChan s) eqn:Hchan; simpl; [done |]. intros [= <-].
    apply inv_set_pc; [by apply inv_emit |]. simpl.
    intros go' s' Hg' Hs'. assert (go' = go) as -> by congruence.
    assert (s' = s) as -> by congruence. split; [| done]. intros _.
    destruct (running s) eqn:Hrun; [| done].
    rewrite (proj2 (live_open _ Hinv _ s Hs) Hrun) in Hchan. done.
  - (* the job stops itself *)
    destruct (StopScheduler clock (id s) w) as [w1 | |] eqn:Hstop; try done.
    intros [= <-].
    destruct (StopScheduler_self _ _ _ _ _ Hinv Hs Hstop)
      as (Hgos & _ & _ & s1 & Hs1 & Hcfg & _ & Hrun1 & _).
    apply inv_set_pc; [by eapply inv_StopScheduler |].
    rewrite Hgos. intros go' s' Hg' Hs'. assert (go' = go) as -> by congruence.
    assert (s' = s1) as -> by congruence. split; [done |].
    rewrite Hcfg. intros Hbad. destruct resume as [d |]; [| done].
    by destruct (Hvalid _ eq_refl eq_refl).
  - (* a tick *)
    unfold callAPI_send. destruct (callAPI_request s) as [msgs [req |]];
      intros [= <-]; [| by apply inv_emit].
    apply inv_set_pc.
    + apply inv_send; [by apply inv_emit |]. simpl. exists s.
      split; [done |]. by apply (Hvalid _ eq_refl).
    + simpl. intros go' s' Hg' Hs'. assert (go' = go) as -> by congruence.
      assert (s' = s) as -> by congruence. split; [done |].
      intros Hbad. by destruct (Hvalid _ eq_refl eq_refl).
  - (* stopped between ticks *)
    destruct (stopChan s) eqn:Hchan; simpl; [done |]. intros [= <-].
    apply inv_set_pc; [by apply inv_emit |]. simpl.
    intros go' s' Hg' Hs'. assert (go' = go) as -> by congruence.
    assert (s' = s) as -> by congruence. split; [| done]. intros _.
    destruct (running s) eqn:Hrun; [| done].
    rewrite (proj2 (live_open _ Hinv _ s Hs) Hrun) in Hchan. done.
  - (* [client.Do] failed *)
    intros [= <-]. apply inv_set_pc; [by apply inv_emit |]. simpl.
    intros go' s' Hg' Hs'. assert (go' = go) as -> by congruence.
    assert (s' = s) as -> by congruence. split; [done |].
    intros Hbad. by destruct (Hvalid _ eq_refl eq_refl).
  - (* [io.ReadAll] failed *)
    intros [= <-]. apply inv_set_pc; [by apply inv_emit |]. simpl.
    intros go' s' Hg' Hs'. assert (go' = go) as -> by congruence.
    assert (s' = s) as -> by congruence. split; [done |].
    intros Hbad. by destruct (Hvalid _ eq_refl eq_refl).
  - (* a response *)
    unfold callAPI_respond. destruct (code =? http.StatusOK); intros [= <-];
      (apply inv_set_pc; [by apply inv_emit |]); simpl;
      intros go' s' Hg' Hs'; (assert (go' = go) as -> by congruence);
      (assert (s' = s) as -> by congruence); (split; [done |]);
      intros Hbad; by destruct (Hvalid _ eq_refl eq_refl).
Qed.

Lemma inv_step clock l w w' : inv w -> step clock l w = Ok w' -> inv w'.
Proof.
  destruct l as [i cfg | i | g ev]; simpl.
  - apply inv_StartScheduler.
  - apply inv_StopScheduler.
  - apply inv_run_step.
Qed.

Lemma reachable_inv w : reachable w -> inv w.
Proof.
  induction 1 as [| | w clock l w' _ IH Hstep].
  - apply inv_boot.
  - by apply inv_Init; [apply inv_boot |].
  - by eapply inv_step.
Qed.

End transitions.

(** *** Starting and stopping *)

Lemma one_job_reachable : reachable (lib := sample.lib) sample.one_job.
Proof.
  eapply (reach_step _ sample.noon (CallStart "job" sample.echo_cfg));
    [apply reach_Init | reflexivity].
Qed.





Lemma msg_not_running_other i :
  msg_not_running i <> msg_stopped i /\ msg_not_running i <> msg_not_found i.
Proof.
  unfold msg_not_running, msg_stopped, msg_not_found.
  split; intros Heq%append_inj_l; discriminate Heq.
Qed.

Lemma emit_one_last clock m w :
  last (logs (emit clock [m] w)) = Some (logger.MkLogEntry (clock 0%nat) m).
Proof. apply AddLog_last. Qed.

(** C10. In every reachable state each scheduler found in the map has
    its [running] flag set (and an open stop channel), so
    [StopScheduler] never takes its branch for a registered scheduler
    that is not running: it either stops the job or reports not-found,
    and the line it logs is never the not-running diagnostic. *)
Theorem registered_jobs_are_running `{GoLib} w :
  reachable w ->
  (forall i a, lookup_reg w i = Some a ->
     exists s, heap w !! a = Some s /\ id s = i /\ running s = true /\
               stopChan s = ChanOpen) /\
  (forall clock i, exists w',
     StopScheduler clock i w = Ok w' /\
     (logger.Message <$> last (logs w')) <> Some (msg_not_running i) /\
     match lookup_reg w i with
     | Some a => logger.Message <$> last (logs w') = Some (msg_stopped i)
     | None => logger.Message <$> last (logs w') = Some (msg_not_found i)
     end).
Proof.
  intros Hinv%reachable_inv. split.
  - intros i a Hi. destruct (reg_live _ Hinv i a Hi) as (s & Hs & Hid & Hrun).
    exists s. repeat (split; [done |]). by apply (live_open _ Hinv a s Hs).
  - intros clock i. destruct (msg_not_running_other i) as [Hne1 Hne2].
    destruct (lookup_reg w i) as [a |] eqn:Hi.
    + destruct (StopScheduler_present clock i a w Hinv Hi) as (s & _ & _ & Heq).
      eexists. split; [exact Heq |]. rewrite emit_one_last. simpl.
      split; [congruence | done].
    + eexists. split; [by apply StopScheduler_absent |].
      rewrite emit_one_last. simpl. split; [congruence | done].
Qed.

Lemma registered_jobs_are_running_witness :
  reachable (lib := sample.lib) sample.one_job /\
  (forall i a, lookup_reg sample.one_job i = Some a ->
     exists s, heap sample.one_job !! a = Some s /\ id s = i /\
               running s = true /\ stopChan s = ChanOpen) /\
  (forall clock i, exists w',
     StopScheduler clock i sample.one_job = Ok w' /\
     (logger.Message <$> last (logs w')) <> Some (msg_not_running i) /\
     match lookup_reg sample.one_job i with
     | Some a => logger.Message <$> last (logs w') = Some (msg_stopped i)
     | None => logger.Message <$> last (logs w') = Some (msg_not_found i)
     end).
Proof.
  split; [exact one_job_reachable |].
  exact (registered_jobs_are_running (H := sample.lib) sample.one_job
           one_job_reachable).
Defined.

(** *** The job, one transition at a time *)

Lemma pc_of_set_pc g p w go :
  gos w !! g = Some go -> pc_of (set_pc g p w) g = Some p.
Proof.
  intros Hg. unfold pc_of. simpl. rewrite list_lookup_alter_eq, Hg. done.
Qed.

Lemma gos_set_pc g p w go :
  gos w !! g = Some go ->
  gos (set_pc g p w) !! g = Some (MkGo (self go) p).
Proof. intros Hg. simpl. rewrite list_lookup_alter_eq, Hg. done. Qed.

Lemma run_step_at `{GoLib} clock g ev w go s :
  gos w !! g = Some go -> heap w !! self go = Some s ->
  run_step clock g ev w =
  match pc go, ev with
  | AtEntry, Scheduled today now => run_begin clock g s today now w
  | AtWait _, TimerFired => run_ticker clock g s w
  | AtWait _, StopSeen =>
      if closed (stopChan s) then
        Ok (set_pc g Returned (emit clock [msg_stopped_before_start (id s)] w))
      else Disabled
  | AtSelfStop resume, LockAcquired =>
      match StopScheduler clock (id s) w with
      | Ok w' => Ok (set_pc g (after_stop resume) w')
      | o => o
      end
  | AtTick d, TimerFired => callAPI_send clock g (self go) s d w
  | AtTick _, StopSeen =>
      if closed (stopChan s) then
        Ok (set_pc g Returned (emit clock [msg_stopped (id s)] w))
      else Disabled
  | AtDo d _, DoFailed err =>
      Ok (set_pc g (AtTick d) (emit clock [msg_call_error (id s) err] w))
  | AtDo d _, ReadFailed err =>
      Ok (set_pc g (AtTick d) (emit clock [msg_body_error (id s) err] w))
  | AtDo d _, Responded StatusCode body => callAPI_respond clock g s d StatusCode body w
  | _, _ => Disabled
  end.
Proof. intros Hg Hs. unfold run_step. by rewrite Hg, Hs. Qed.

(** C6. The start instant parsed from today's date and the configured
    time of day is moved by exactly 24 hours (86400 seconds) when it
    lies strictly before the clock reading, whether or not the moved
    instant is then in the future, and is left as it is otherwise; the
    job waits for the difference between that instant and the clock
    reading. *)
Theorem start_instant_rolls_over_once `{GoLib} clock g go s today now startTime w :
  gos w !! g = Some go -> pc go = AtEntry -> heap w !! self go = Some s ->
  time_ParseInLocation "2006-01-02 15:04:05"
    (today +:+ " " +:+ StartTime (config s)) = Val startTime ->
  (startTime < now -> rollover startTime now = startTime + 86400 * Second) /\
  (now <= startTime -> rollover startTime now = startTime) /\
  exists w', run_step clock g (Scheduled today now) w = Ok w' /\
    pc_of w' g = Some (AtWait (Time_Sub (rollover startTime now) now)).
Proof.
  intros Hg Hpc Hs Hparse. unfold rollover, Time_Before, Time_Add.
  split; [| split].
  - intros Hlt. destruct (Z.ltb_spec startTime now); [reflexivity | lia].
  - intros Hle. destruct (Z.ltb_spec startTime now); [lia | reflexivity].
  - rewrite (run_step_at _ _ _ _ go s) by done. rewrite Hpc.
    unfold run_begin. rewrite Hparse. eexists. split; [reflexivity |].
    by erewrite pc_of_set_pc.
Qed.

(** The job waits from 10:00:00 for 09:30:00 of the next day. *)
Lemma start_instant_rolls_over_once_witness :
  let start := 1793439000000000000 in
  let now := start + 1800 * Second in
  start < now /\
  rollover start now = start + 86400 * Second /\
  exists w', run_step (lib := sample.lib) sample.noon 0 (Scheduled "2026-10-31" now)
               sample.one_job = Ok w' /\
    pc_of w' 0 = Some (AtWait (84600 * Second)).
Proof.
  intros start now. split; [reflexivity |].
  destruct (start_instant_rolls_over_once (H := sample.lib) sample.noon 0
              (MkGo 0 AtEntry) (MkScheduler "job" ChanOpen true sample.echo_cfg)
              "2026-10-31" now start sample.one_job
              eq_refl eq_refl eq_refl eq_refl) as (Hpast & _ & Hstep).
  split; [apply Hpast; reflexivity |]. exact Hstep.
Defined.



(** *** A job with an unknown repeat unit *)

Lemma repeat_interval_None cfg :
  repeat_interval cfg = None <->
  RepeatUnit cfg <> "h" /\ RepeatUnit cfg <> "m" /\ RepeatUnit cfg <> "s".
Proof.
  unfold repeat_interval.
  destruct (String.eqb_spec (RepeatUnit cfg) "h") as [Hh | Hh];
    [split; [done | by intros [? _]] |].
  destruct (String.eqb_spec (RepeatUnit cfg) "m") as [Hm | Hm];
    [split; [done | by intros (_ & ? & _)] |].
  destruct (String.eqb_spec (RepeatUnit cfg) "s") as [Hs | Hs];
    [split; [done | by intros (_ & _ & ?)] | done].
Qed.

Lemma length_gos_set_pc g p w : length (gos (set_pc g p w)) = length (gos w).
Proof. simpl. apply length_alter. Qed.

(** Every transition of such a job, from a phase before the loop. *)
Lemma bad_unit_step `{GoLib} clock g ev w w' go s :
  inv w -> gos w !! g = Some go -> heap w !! self go = Some s ->
  repeat_interval (config s) = None ->
  run_step clock g ev w = Ok w' ->
  exists go' s', gos w' !! g = Some go' /\ self go' = self go /\
    heap w' !! self go = Some s' /\ config s' = config s /\
    (phase_rank (pc go') < phase_rank (pc go))%nat /\
    sent w' = sent w /\ length (gos w') = length (gos w).
Proof.
  intros Hinv Hg Hs Hbad. rewrite (run_step_at _ _ _ _ go s) by done.
  pose proof (bad_unit_idle _ Hinv g go s Hg Hs Hbad) as Hidle.
  destruct (pc go) as [| wd | [d |] | d | d req |] eqn:Hpc; try done;
    destruct ev as [today now | | | | err | err | code body]; try done.
  - unfold run_begin. destruct (time_ParseInLocation _ _) as [t | err];
      intros [= <-]; eexists; exists s;
      (split; [by apply gos_set_pc |]); repeat (split; [done |]);
      (split; [simpl; lia |]);
      (split; [done | by rewrite length_gos_set_pc]).
  - unfold run_ticker. rewrite Hbad. intros [= <-].
    eexists. exists s. split; [by apply gos_set_pc |].
    repeat (split; [done |]). split; [simpl; lia |].
    split; [done | by rewrite length_gos_set_pc].
  - destruct (closed (stopChan s)); [| done]. intros [= <-].
    eexists. exists s. split; [by apply gos_set_pc |].
    repeat (split; [done |]). split; [simpl; lia |].
    split; [done | by rewrite length_gos_set_pc].
  - destruct (StopScheduler clock (id s) w) as [w1 | |] eqn:Hstop; try done.
    intros [= <-].
    destruct (StopScheduler_self _ _ _ _ _ Hinv Hs Hstop)
      as (Hgos & Hsent & _ & s1 & Hs1 & Hcfg & _).
    eexists. exists s1. split; [apply gos_set_pc; by rewrite Hgos |].
    repeat (split; [done |]). split; [simpl; lia |].
    split; [done |]. by rewrite length_gos_set_pc, Hgos.
Qed.

Lemma bad_unit_no_panic `{GoLib} clock g ev w go s msg :
  inv w -> gos w !! g = Some go -> heap w !! self go = Some s ->
  repeat_interval (config s) = None ->
  run_step clock g ev w <> Panic msg.
Proof.
  intros Hinv Hg Hs Hbad. rewrite (run_step_at _ _ _ _ go s) by done.
  destruct (pc go) as [| wd | resume | d | d req |];
    destruct ev as [today now | | | | err | err | code body]; try done.
  - unfold run_begin. by destruct (time_ParseInLocation _ _).
  - unfold run_ticker. by rewrite Hbad.
  - by destruct (closed (stopChan s)).
  - destruct (StopScheduler_Ok clock (id s) w Hinv) as (w1 & -> & _). done.
  - unfold callAPI_send. by destruct (callAPI_request s) as [msgs [req |]].
  - by destruct (closed (stopChan s)).
  - unfold callAPI_respond. by destruct (code =? http.StatusOK).
Qed.

Lemma bad_unit_progress `{GoLib} clock g w go s :
  inv w -> gos w !! g = Some go -> heap w !! self go = Some s ->
  repeat_interval (config s) = None -> pc go <> Returned ->
  exists ev w', run_step clock g ev w = Ok w'.
Proof.
  intros Hinv Hg Hs Hbad Hlive.
  pose proof (bad_unit_idle _ Hinv g go s Hg Hs Hbad) as Hidle.
  destruct (pc go) as [| wd | [d |] | d | d req |] eqn:Hpc; try done.
  - exists (Scheduled "" 0). rewrite (run_step_at _ _ _ _ go s), Hpc by done.
    unfold run_begin. destruct (time_ParseInLocation _ _); eauto.
  - exists TimerFired. rewrite (run_step_at _ _ _ _ go s), Hpc by done.
    unfold run_ticker. rewrite Hbad. eauto.
  - exists LockAcquired. rewrite (run_step_at _ _ _ _ go s), Hpc by done.
    destruct (StopScheduler_Ok clock (id s) w Hinv) as (w1 & -> & _). eauto.
Qed.

(** Left to itself, such a job returns within [n] transitions when its
    phase has rank at most [n]. *)
Lemma bad_unit_returns `{GoLib} clock n : forall w g go s,
  inv w -> gos w !! g = Some go -> heap w !! self go = Some s ->
  repeat_interval (config s) = None -> (phase_rank (pc go) <= n)%nat ->
  exists evs w', (length evs <= n)%nat /\
    run_events clock g evs w = Ok w' /\ inv w' /\
    pc_of w' g = Some Returned /\ sent w' = sent w.
Proof.
  induction n as [| n IH]; intros w g go s Hinv Hg Hs Hbad Hrank.
  - exists [], w. split; [done |]. split; [done |]. split; [done |].
    split; [| done]. unfold pc_of. rewrite Hg. simpl.
    pose proof (bad_unit_idle _ Hinv g go s Hg Hs Hbad) as Hidle.
    destruct (pc go) as [| | [|] | | |]; simpl in *; try lia; done.
  - assert (Hdec : pc go = Returned \/ pc go <> Returned)
      by (destruct (pc go); first [by left | by right]).
    destruct Hdec as [Hret | Hlive].
    { exists [], w. split; [simpl; lia |]. split; [done |]. split; [done |].
      split; [| done]. unfold pc_of. by rewrite Hg, <- Hret. }
    destruct (bad_unit_progress clock g w go s Hinv Hg Hs Hbad Hlive)
      as (ev & w1 & Hstep).
    destruct (bad_unit_step _ _ _ _ _ _ _ Hinv Hg Hs Hbad Hstep)
      as (go1 & s1 & Hg1 & Hself & Hs1 & Hcfg & Hlt & Hsent & _).
    destruct (IH w1 g go1 s1) as (evs & w' & Hlen & Hrun & Hinv' & Hpc' & Hsent');
      [by eapply inv_run_step | done | by rewrite Hself | by rewrite Hcfg
      | lia |].
    exists (ev :: evs), w'. split; [simpl; lia |]. simpl. rewrite Hstep.
    split; [done |]. split; [done |]. split; [done | congruence].
Qed.

(** C4. A job whose repeat unit is none of [h], [m], [s] is never in
    the loop of [run] and never hands a request to [client.Do].  Each
    of its transitions brings it closer to its return, none panics,
    none sends a request or starts a goroutine, and one is always
    possible until it has returned: left to itself the job returns
    within three transitions (entry, end of the wait, self-removal)
    and is then registered under no identifier.  When the wait expires
    the job goes to its own [StopScheduler] call, after which its
    identifier is free and the job has returned; a returned job has no
    transition left. *)
Theorem invalid_unit_never_runs `{GoLib} w g go s :
  reachable w -> gos w !! g = Some go -> heap w !! self go = Some s ->
  RepeatUnit (config s) <> "h" -> RepeatUnit (config s) <> "m" ->
  RepeatUnit (config s) <> "s" ->
  running_phase (pc go) = false /\
  (forall req, (self go, req) ∉ sent w) /\
  (forall clock ev w', run_step clock g ev w = Ok w' ->
     exists p', pc_of w' g = Some p' /\
       (phase_rank p' < phase_rank (pc go) <= 3)%nat /\
       sent w' = sent w /\ length (gos w') = length (gos w)) /\
  (forall clock ev msg, run_step clock g ev w <> Panic msg) /\
  (pc go <> Returned -> forall clock, exists ev w', run_step clock g ev w = Ok w') /\
  (forall clock, exists evs w',
     (length evs <= 3)%nat /\ run_events clock g evs w = Ok w' /\
     pc_of w' g = Some Returned /\ sent w' = sent w /\
     forall i, lookup_reg w' i <> Some (self go)) /\
  (forall d clock, pc go = AtWait d ->
     exists w', run_step clock g TimerFired w = Ok w' /\
       pc_of w' g = Some (AtSelfStop None)) /\
  (forall clock, pc go = AtSelfStop None ->
     exists w', run_step clock g LockAcquired w = Ok w' /\
       lookup_reg w' (id s) = None /\ pc_of w' g = Some Returned) /\
  (pc go = Returned ->
     (forall clock ev, run_step clock g ev w = Disabled) /\
     forall i, lookup_reg w i <> Some (self go)).
Proof.
  intros Hinv%reachable_inv Hg Hs Hh Hm Hsec.
  assert (Hbad : repeat_interval (config s) = None)
    by (by apply repeat_interval_None).
  pose proof (bad_unit_idle _ Hinv g go s Hg Hs Hbad) as Hidle.
  assert (Hrank : (phase_rank (pc go) <= 3)%nat)
    by (destruct (pc go) as [| | [|] | | |]; simpl in *; try lia; done).
  assert (Hfree : forall w' go', inv w' -> gos w' !! g = Some go' ->
            pc go' = Returned -> forall i, lookup_reg w' i <> Some (self go)).
  { intros w' go' Hinv' Hg' Hret i Hi.
    destruct (gos_self _ Hinv) as [_ Hself].
    destruct (gos_self _ Hinv') as [_ Hself'].
    rewrite (Hself g go Hg), <- (Hself' g go' Hg') in Hi.
    destruct (reg_live _ Hinv' _ _ Hi) as (s' & Hs' & _ & Hrun).
    by rewrite (returned_stopped _ Hinv' g go' s' Hg' Hret Hs') in Hrun. }
  split; [done |]. split.
  { intros req Hin. destruct (senders_valid _ Hinv _ _ Hin) as (s' & Hs' & Hok).
    congruence. }
  split.
  { intros clock ev w' Hstep.
    destruct (bad_unit_step _ _ _ _ _ _ _ Hinv Hg Hs Hbad Hstep)
      as (go' & s' & Hg' & _ & _ & _ & Hlt & Hsent & Hlen).
    exists (pc go'). split; [unfold pc_of; by rewrite Hg' |]. done. }
  split; [intros clock ev msg; by eapply bad_unit_no_panic |].
  split; [intros Hlive clock; by eapply bad_unit_progress |].
  split.
  { intros clock.
    destruct (bad_unit_returns clock 3 w g go s Hinv Hg Hs Hbad Hrank)
      as (evs & w' & Hlen & Hrun & Hinv' & Hpc' & Hsent).
    exists evs, w'. repeat (split; [done |]).
    unfold pc_of in Hpc'. destruct (gos w' !! g) as [go' |] eqn:Hg'; [| done].
    injection Hpc' as Hret. by eapply Hfree. }
  split.
  { intros d clock Hpc. rewrite (run_step_at _ _ _ _ go s), Hpc by done.
    unfold run_ticker. rewrite Hbad. eexists. split; [done |].
    by erewrite pc_of_set_pc. }
  split.
  { intros clock Hpc. rewrite (run_step_at _ _ _ _ go s), Hpc by done.
    destruct (StopScheduler_Ok clock (id s) w Hinv) as (w1 & Hstop & Hfree1).
    rewrite Hstop. eexists. split; [done |].
    destruct (StopScheduler_self _ _ _ _ _ Hinv Hs Hstop) as (Hgos & _).
    split; [done |]. erewrite pc_of_set_pc; [done | by rewrite Hgos]. }
  intros Hpc. split.
  - intros clock ev. rewrite (run_step_at _ _ _ _ go s), Hpc by done.
    by destruct ev.
  - by eapply Hfree.
Qed.

(** *** Sample runs *)

Lemma play_reachable ls : forall w w',
  reachable (lib := sample.lib) w -> sample.play ls w = Ok w' ->
  reachable (lib := sample.lib) w'.
Proof.
  induction ls as [| l ls IH]; intros w w' Hw; simpl.
  - by intros [= <-].
  - destruct (step sample.noon l w) as [w1 | |] eqn:Hstep; try done.
    apply IH. by eapply reach_step.
Qed.

Lemma world_after_reachable ls w :
  sample.play ls (Init boot) = Ok w -> reachable (lib := sample.lib) w.
Proof. apply play_reachable, reach_Init. Qed.

Lemma in_flight_reachable : reachable (lib := sample.lib) sample.in_flight.
Proof. by apply (world_after_reachable sample.to_flight). Qed.

Lemma bad_unit_waiting_reachable :
  reachable (lib := sample.lib) sample.bad_unit_waiting.
Proof.
  by apply (world_after_reachable
              [CallStart "job" sample.bad_unit_cfg;
               Run 0 (Scheduled "2026-10-31" sample.ten)]).
Qed.


(** A job with the repeat unit [d], waiting for its start time. *)
Lemma invalid_unit_never_runs_witness :
  reachable (lib := sample.lib) sample.bad_unit_waiting /\
  RepeatUnit sample.bad_unit_cfg <> "h" /\
  RepeatUnit sample.bad_unit_cfg <> "m" /\
  RepeatUnit sample.bad_unit_cfg <> "s" /\
  (forall req, (0%nat, req) ∉ sent sample.bad_unit_waiting) /\
  exists w', run_step (lib := sample.lib) sample.noon 0 TimerFired
               sample.bad_unit_waiting = Ok w' /\
    pc_of w' 0 = Some (AtSelfStop None).
Proof.
  split; [exact bad_unit_waiting_reachable |].
  split; [discriminate |]. split; [discriminate |]. split; [discriminate |].
  destruct (invalid_unit_never_runs (H := sample.lib) sample.bad_unit_waiting 0
              (MkGo 0 (AtWait (84600 * Second)))
              (MkScheduler "job" ChanOpen true sample.bad_unit_cfg)
              bad_unit_waiting_reachable eq_refl eq_refl
              ltac:(discriminate) ltac:(discriminate) ltac:(discriminate))
    as (_ & Hsent & _ & _ & _ & _ & Hwait & _).
  split; [exact Hsent |]. exact (Hwait _ sample.noon eq_refl).
Defined.

(** *** Panics *)

(** The ticker of a job whose interval is not positive. *)
Lemma nonpositive_interval_panics `{GoLib} clock g go s wd ri w :
  gos w !! g = Some go -> pc go = AtWait wd -> heap w !! self go = Some s ->
  repeat_interval (config s) = Some ri -> ri <= 0 ->
  run_step clock g TimerFired w = Panic "non-positive interval for NewTicker".
Proof.
  intros Hg Hpc Hs Hri Hle. rewrite (run_step_at _ _ _ _ go s), Hpc by done.
  unfold run_ticker, NewTicker. rewrite Hri.
  destruct (Z.leb_spec ri 0); [done | lia].
Qed.

(** Within these bounds the interval is positive and the ticker is
    created. *)
Lemma interval_positive cfg ri :
  repeat_interval cfg = Some ri ->
  0 < RepeatValue cfg <= 2562047 -> 0 < ri.
Proof.
  unfold repeat_interval, mul64, wrap64, Hour, Minute, Second.
  intros Hri Hrange.
  assert (Hmod : forall z, 0 < z < 2 ^ 63 -> (z + 2 ^ 63) mod 2 ^ 64 - 2 ^ 63 = z).
  { intros z Hz. rewrite Z.mod_small; lia. }
  repeat case_match; simplify_eq; rewrite Hmod; lia.
Qed.

(** In a reachable state a transition panics only for one of two
    reasons: [StartScheduler] stores into the nil map, or [run] makes a
    ticker with an interval that is not positive.  [StopScheduler]
    never closes a closed channel. *)
Lemma panic_causes `{GoLib} w clock l msg :
  reachable w -> step clock l w = Panic msg ->
  (exists i cfg, l = CallStart i cfg /\ schedulers w = None /\
     msg = "assignment to entry in nil map") \/
  (exists g go s wd ri, l = Run g TimerFired /\ gos w !! g = Some go /\
     pc go = AtWait wd /\ heap w !! self go = Some s /\
     repeat_interval (config s) = Some ri /\ ri <= 0 /\
     msg = "non-positive interval for NewTicker").
Proof.
  intros Hinv%reachable_inv. destruct l as [i cfg | i | g ev]; simpl.
  - intros Hstart.
    destruct (StartScheduler_cases _ _ _ _ _ Hstart)
      as [(a & _ & ?) | [[Hnil [= <-]] | (m & _ & _ & ?)]]; try done.
    left. eauto.
  - destruct (StopScheduler_Ok clock i w Hinv) as (w' & -> & _). done.
  - unfold run_step.
    destruct (gos w !! g) as [go |] eqn:Hg; [| done].
    destruct (heap w !! self go) as [s |] eqn:Hs; [| done].
    destruct (pc go) as [| wd | resume | d | d req |] eqn:Hpc;
      destruct ev as [today now | | | | err | err | code body]; try done.
    + unfold run_begin. by destruct (time_ParseInLocation _ _).
    + unfold run_ticker, NewTicker.
      destruct (repeat_interval (config s)) as [ri |] eqn:Hri; [| done].
      destruct (Z.leb_spec ri 0) as [Hle | Hgt]; [| done].
      intros [= <-]. right. exists g, go, s, wd, ri. done.
    + by destruct (closed (stopChan s)).
    + destruct (StopScheduler_Ok clock (id s) w Hinv) as (w' & -> & _). done.
    + unfold callAPI_send. by destruct (callAPI_request s) as [msgs [req |]].
    + by destruct (closed (stopChan s)).
    + unfold callAPI_respond. by destruct (code =? http.StatusOK).
Qed.

(** C9 (the code departs from the claim). A job started with repeat
    value 0 and unit [s] panics in [time.NewTicker] when its wait
    expires, and so does a job with 2562048 hours, whose interval
    wraps around to a negative [Duration]; [StartScheduler] itself
    panics while the map is nil, that is, until [Init] has run. *)
Theorem ticker_panics_on_zero_repeat_value :
  sample.play (sample.wait_expires sample.zero_cfg) (Init boot) =
    Panic "non-positive interval for NewTicker" /\
  sample.play (sample.wait_expires sample.huge_cfg) (Init boot) =
    Panic "non-positive interval for NewTicker" /\
  StartScheduler sample.noon "job" sample.echo_cfg boot =
    Panic "assignment to entry in nil map".
Proof. repeat split; reflexivity. Qed.

(** *** The dispatch *)

(** The [range] loop gives every key of the payload its one value. *)
Lemma range_Add_fmap (payload : gmap string string) :
  range_Add payload = (fun v => [v]) <$> payload.
Proof.
  unfold range_Add.
  apply (map_fold_weak_ind
           (fun r (m : gmap string string) => r = (fun v => [v]) <$> m)).
  - by rewrite fmap_empty.
  - intros i x m r Hi ->. unfold Values_Add.
    rewrite lookup_fmap, Hi. simpl. by rewrite fmap_insert.
Qed.

(** What [callAPI] hands to [client.Do] when the method is not POST:
    nothing when the target URL or the URL with the query does not
    parse, else a GET request without body or header. *)
Lemma callAPI_request_GET `{GoLib} s :
  strings_ToUpper (HTTPMethod (config s)) <> "POST" ->
  callAPI_request s =
  match url_Parse (APIURL (config s)) with
  | Fail err => ([msg_url_error (id s) err], None)
  | Val baseURL =>
      let query := Values_Encode ((fun v => [v]) <$> decode_payload (config s)) in
      match url_Parse (url_String (set_RawQuery query baseURL)) with
      | Fail err => ([msg_request_error (id s) err], None)
      | Val u =>
          ([], Some (http.MkRequest "GET"
                       (set_Host (http.removeEmptyPort (Host u)) u) ∅ None
                       (http.removeEmptyPort (Host u))))
      end
  end.
Proof.
  intros Hget. unfold callAPI_request.
  destruct (String.eqb_spec (strings_ToUpper (HTTPMethod (config s))) "POST");
    [done |].
  destruct (url_Parse (APIURL (config s))) as [baseURL | err]; [| done].
  rewrite range_Add_fmap. unfold http.NewRequest.
  by destruct (url_Parse _).
Qed.

Lemma callAPI_request_POST `{GoLib} s :
  strings_ToUpper (HTTPMethod (config s)) = "POST" ->
  callAPI_request s =
  let form := Values_Encode ((fun v => [v]) <$> decode_payload (config s)) in
  match url_Parse (APIURL (config s)) with
  | Fail err => ([msg_request_error (id s) err], None)
  | Val u =>
      ([], Some (http.MkRequest "POST"
                   (set_Host (http.removeEmptyPort (Host u)) u)
                   {["Content-Type" := ["application/x-www-form-urlencoded"]]}
                   (Some form) (http.removeEmptyPort (Host u))))
  end.
Proof.
  intros Hpost. unfold callAPI_request. rewrite Hpost. simpl.
  rewrite range_Add_fmap. unfold http.NewRequest.
  by destruct (url_Parse _).
Qed.

(** The only diagnostics of the construction of a request. *)
Lemma callAPI_request_msgs `{GoLib} s :
  (callAPI_request s).1 = [] \/
  exists err, (callAPI_request s).1 = [msg_url_error (id s) err] \/
              (callAPI_request s).1 = [msg_request_error (id s) err].
Proof.
  unfold callAPI_request, http.NewRequest.
  repeat case_match; simpl; eauto.
Qed.









End scheduler_facts.

(** ** The log, for any number of calls *)

Module log_facts.

Import logger logger_facts.

(** X1.  After any number of [AddLog] calls on the empty log, [GetLogs]
    returns the entries of the last [min n 100] calls, oldest first, with
    the time and message each call gave; in particular the entry of the
    latest call is the last one. *)
Theorem log_is_the_tail_of_the_calls calls :
  GetLogs (AddLogs calls []) = drop (length calls - 100) (entries calls) /\
  length (GetLogs (AddLogs calls [])) = Nat.min (length calls) 100 /\
  (forall c, last calls = Some c ->
     last (GetLogs (AddLogs calls [])) = Some (MkLogEntry c.1 c.2)).
Proof.
  unfold GetLogs.
  assert (Heq : AddLogs calls [] = drop (length calls - 100) (entries calls)).
  { rewrite AddLogs_drop by (simpl; unfold cap; lia). reflexivity. }
  assert (Hlen : length (entries calls) = length calls).
  { unfold entries. by rewrite length_map. }
  split; [exact Heq |]. split.
  - rewrite Heq, length_drop, Hlen. lia.
  - intros c Hc. rewrite Heq.
    destruct (last_Some calls c) as [[l' ->] _]; [done |].
    unfold entries. rewrite map_app, length_app. simpl.
    rewrite drop_app_le by (rewrite length_map; lia).
    by rewrite last_snoc.
Qed.

End log_facts.

(** ** The registry: more on [Init], [StartScheduler] and [StopScheduler] *)

Module registry_facts.

Import golib scheduler scheduler_facts.

(** X2.  While the map is nil (before [Init]), [StartScheduler] panics
    for every identifier and configuration, and [StopScheduler] only
    reports an unknown identifier; [Init] makes an empty map, in which
    the same [StartScheduler] call registers its job at a new address
    and starts its goroutine. *)
Theorem start_needs_Init clock i cfg w :
  schedulers w = None ->
  StartScheduler clock i cfg w = Panic "assignment to entry in nil map" /\
  StopScheduler clock i w = Ok (emit clock [msg_not_found i] w) /\
  (forall j, lookup_reg (Init w) j = None) /\
  StartScheduler clock i cfg (Init w) =
    Ok (MkWorld (Some {[i := length (heap w)]})
          (heap w ++ [MkScheduler i ChanOpen true cfg])
          (gos w ++ [MkGo (length (heap w)) AtEntry]) (logs w) (sent w)).
Proof.
  intros Hnil. unfold StartScheduler, StopScheduler, lookup_reg. rewrite Hnil.
  simpl. rewrite lookup_empty. repeat split; try done.
Qed.

Lemma start_needs_Init_witness :
  schedulers boot = None /\
  StartScheduler sample.noon "job" sample.echo_cfg boot =
    Panic "assignment to entry in nil map" /\
  StartScheduler sample.noon "job" sample.echo_cfg (Init boot) =
    Ok (MkWorld (Some {["job" := 0%nat]})
          [MkScheduler "job" ChanOpen true sample.echo_cfg]
          [MkGo 0 AtEntry] [] []).
Proof.
  split; [reflexivity |].
  pose proof (start_needs_Init sample.noon "job" sample.echo_cfg boot eq_refl)
    as (Hpanic & _ & _ & Hstart).
  split; [exact Hpanic | exact Hstart].
Defined.

(** X3.  [StartScheduler] and [StopScheduler] on one identifier leave
    every other job alone: the registration of every other identifier,
    every scheduler object other than the one stopped, the goroutines
    and the requests sent so far are the same afterwards. *)
Theorem other_jobs_are_untouched `{GoLib} clock i cfg w :
  reachable w ->
  (forall w', StartScheduler clock i cfg w = Ok w' ->
     (forall j, j <> i -> lookup_reg w' j = lookup_reg w j) /\
     (forall a s, heap w !! a = Some s -> heap w' !! a = Some s) /\
     (forall g go, gos w !! g = Some go -> gos w' !! g = Some go) /\
     sent w' = sent w) /\
  (forall w', StopScheduler clock i w = Ok w' ->
     (forall j, j <> i -> lookup_reg w' j = lookup_reg w j) /\
     (forall a, lookup_reg w i <> Some a -> heap w' !! a = heap w !! a) /\
     gos w' = gos w /\ sent w' = sent w).
Proof.
  intros Hinv%reachable_inv. split; intros w' Hw'.
  - destruct (StartScheduler_cases _ _ _ _ _ Hw')
      as [(a & _ & [= ->]) | [(_ & [=]) | (m & Hm & Hmi & [= ->])]]; [done |].
    unfold lookup_reg. rewrite Hm. simpl. split; [| split; [| split; [| done]]].
    + intros j Hj. by rewrite lookup_insert_ne.
    + intros a s Ha. by apply lookup_app_l_Some.
    + intros g go Hg. by apply lookup_app_l_Some.
  - destruct (lookup_reg w i) as [a |] eqn:Hi.
    + destruct (StopScheduler_present clock i a w Hinv Hi) as (s & Hs & _ & Heq).
      rewrite Heq in Hw'. injection Hw' as <-. simpl.
      split; [| split; [| done]].
      * intros j Hj. unfold lookup_reg. simpl.
        destruct (schedulers w); simpl; [by rewrite lookup_delete_ne | done].
      * intros b Hb. rewrite list_lookup_insert_ne; [done | congruence].
    + rewrite StopScheduler_absent in Hw' by done. injection Hw' as <-. done.
Qed.

Lemma other_jobs_are_untouched_witness :
  reachable (lib := sample.lib) sample.one_job /\
  exists w', StopScheduler sample.noon "other" sample.one_job = Ok w' /\
    lookup_reg w' "job" = lookup_reg sample.one_job "job" /\
    heap w' !! 0%nat = heap sample.one_job !! 0%nat.
Proof.
  split; [exact one_job_reachable |].
  assert (Hstopped : { w' | StopScheduler sample.noon "other" sample.one_job = Ok w' }).
  { vm_compute. eexists. reflexivity. }
  destruct Hstopped as [w' Hw']. exists w'. split; [exact Hw' |].
  pose proof (other_jobs_are_untouched (H := sample.lib) sample.noon "other"
                sample.echo_cfg sample.one_job one_job_reachable) as [_ Hstop].
  destruct (Hstop w' Hw') as (Hreg & Hheap & _).
  split.
  - by apply Hreg.
  - apply Hheap. vm_compute. discriminate.
Defined.

(** X4.  Starting a job under a free identifier and stopping it again
    gives back the registry as it was: the map is the same, the only
    trace is one more scheduler object, stopped and with its channel
    closed, the goroutine started for it, and the log line of the stop. *)
Theorem start_then_stop_restores_the_registry `{GoLib} clock clock' i cfg m w :
  reachable w -> schedulers w = Some m -> m !! i = None ->
  exists w1 w2,
    StartScheduler clock i cfg w = Ok w1 /\
    lookup_reg w1 i = Some (length (heap w)) /\
    StopScheduler clock' i w1 = Ok w2 /\
    schedulers w2 = schedulers w /\
    heap w2 = heap w ++ [MkScheduler i ChanClosed false cfg] /\
    gos w2 = gos w ++ [MkGo (length (heap w)) AtEntry] /\
    sent w2 = sent w /\
    logs w2 = logger.AddLog (clock' 0%nat) (msg_stopped i) (logs w).
Proof.
  intros Hreach Hm Hmi.
  pose proof (StartScheduler_fresh clock i cfg w m Hm Hmi) as Hstart.
  set (w1 := MkWorld _ _ _ _ _) in Hstart.
  assert (Hinv1 : inv w1).
  { apply (inv_StartScheduler clock i cfg w); [by apply reachable_inv | done]. }
  assert (Hreg1 : lookup_reg w1 i = Some (length (heap w))).
  { unfold lookup_reg, w1. simpl. apply lookup_insert_eq. }
  destruct (StopScheduler_present clock' i _ w1 Hinv1 Hreg1) as (s & Hs & _ & Hstop).
  assert (s = MkScheduler i ChanOpen true cfg) as ->.
  { unfold w1 in Hs. simpl in Hs. rewrite list_lookup_middle in Hs by done.
    congruence. }
  eexists _, _. split; [exact Hstart |]. split; [exact Hreg1 |].
  split; [exact Hstop |]. unfold w1. simpl.
  split; [| split; [| done]].
  - rewrite Hm. f_equal. rewrite delete_insert_eq. by apply delete_id.
  - replace (length (heap w)) with (length (heap w) + 0)%nat by lia.
    by rewrite insert_app_r.
Qed.

Lemma start_then_stop_restores_the_registry_witness :
  reachable (lib := sample.lib) sample.one_job /\
  exists w1 w2,
    StartScheduler sample.noon "second" sample.echo_cfg sample.one_job = Ok w1 /\
    lookup_reg w1 "second" = Some 1%nat /\
    StopScheduler sample.noon "second" w1 = Ok w2 /\
    schedulers w2 = schedulers sample.one_job /\
    heap w2 = heap sample.one_job ++ [MkScheduler "second" ChanClosed false sample.echo_cfg].
Proof.
  split; [exact one_job_reachable |].
  destruct (start_then_stop_restores_the_registry (H := sample.lib)
              sample.noon sample.noon "second" sample.echo_cfg
              {["job" := 0%nat]} sample.one_job one_job_reachable)
    as (w1 & w2 & H1 & H2 & H3 & H4 & H5 & _).
  - vm_compute. reflexivity.
  - vm_compute. reflexivity.
  - exists w1, w2. repeat (split; [assumption |]). assumption.
Defined.

(** X5.  In every reachable state a scheduler object has its [running]
    flag set exactly when the registry holds it under its identifier,
    and exactly when its stop channel is open; so two running objects
    never share an identifier.  Each goroutine runs the object at its
    own index: there is one goroutine per object ever created. *)
Theorem running_means_registered `{GoLib} w :
  reachable w ->
  (forall a s, heap w !! a = Some s ->
     (running s = true <-> lookup_reg w (id s) = Some a) /\
     (running s = true <-> stopChan s = ChanOpen)) /\
  (forall a b sa sb, heap w !! a = Some sa -> heap w !! b = Some sb ->
     running sa = true -> running sb = true -> id sa = id sb -> a = b) /\
  length (gos w) = length (heap w) /\
  (forall g go, gos w !! g = Some go -> self go = g).
Proof.
  intros Hinv%reachable_inv. split; [| split; [| exact (gos_self _ Hinv)]].
  - intros a s Ha. split.
    + split; [by apply (live_reg _ Hinv) |].
      intros Hreg. destruct (reg_live _ Hinv _ _ Hreg) as (s' & Hs' & _ & Hrun).
      congruence.
    + split; apply (live_open _ Hinv a s Ha).
  - intros a b sa sb Ha Hb Hra Hrb Hid.
    pose proof (live_reg _ Hinv a sa Ha Hra) as H1.
    pose proof (live_reg _ Hinv b sb Hb Hrb) as H2.
    rewrite Hid in H1. congruence.
Qed.

Lemma running_means_registered_witness :
  reachable (lib := sample.lib) sample.in_flight /\
  forall a s, heap sample.in_flight !! a = Some s ->
    (running s = true <-> lookup_reg sample.in_flight (id s) = Some a) /\
    (running s = true <-> stopChan s = ChanOpen).
Proof.
  split; [exact in_flight_reachable |].
  exact (proj1 (running_means_registered (H := sample.lib) sample.in_flight
                  in_flight_reachable)).
Defined.

End registry_facts.

(** ** The job: more on [run] *)

Module job_facts.

Import golib scheduler scheduler_facts.

Lemma waiting_reachable : reachable (lib := sample.lib) scenario.waiting.
Proof. apply (world_after_reachable sample.to_wait). vm_compute. reflexivity. Qed.

Lemma bad_time_started_reachable :
  reachable (lib := sample.lib) scenario.bad_time_started.
Proof.
  apply (world_after_reachable [CallStart "job" scenario.bad_time_cfg]).
  vm_compute. reflexivity.
Qed.

Lemma logs_set_pc g p w : logs (set_pc g p w) = logs w.
Proof. done. Qed.

Lemma run_step_Returned `{GoLib} clock g ev w go :
  gos w !! g = Some go -> pc go = Returned -> run_step clock g ev w = Disabled.
Proof.
  intros Hg Hpc. unfold run_step. rewrite Hg.
  destruct (heap w !! self go); [| done]. rewrite Hpc. by destruct ev.
Qed.

(** X6.  In a reachable state the only transitions that panic are a
    [StartScheduler] call while the map is nil and the creation of the
    ticker with an interval that is not positive.  [StopScheduler] never
    panics: it never closes a closed channel.  Once the map is made
    [StartScheduler] never panics, and a job whose repeat value lies
    between 1 and 2562047 never panics, whatever its unit. *)
Theorem only_two_ways_to_panic `{GoLib} clock w :
  reachable w ->
  (forall l msg, step clock l w = Panic msg ->
     (exists i cfg, l = CallStart i cfg /\ schedulers w = None /\
        msg = "assignment to entry in nil map") \/
     (exists g go s wd ri, l = Run g TimerFired /\ gos w !! g = Some go /\
        pc go = AtWait wd /\ heap w !! self go = Some s /\
        repeat_interval (config s) = Some ri /\ ri <= 0 /\
        msg = "non-positive interval for NewTicker")) /\
  (forall i msg, StopScheduler clock i w <> Panic msg) /\
  (schedulers w <> None ->
   forall i cfg msg, StartScheduler clock i cfg w <> Panic msg) /\
  (forall g go s ev msg, gos w !! g = Some go -> heap w !! self go = Some s ->
     0 < RepeatValue (config s) <= 2562047 ->
     run_step clock g ev w <> Panic msg).
Proof.
  intros Hreach.
  assert (Hall : forall l msg, step clock l w = Panic msg -> _) by
    (intros l msg; exact (panic_causes w clock l msg Hreach)).
  split; [exact Hall |]. split; [| split].
  - intros i msg Hp.
    destruct (Hall (CallStop i) msg Hp)
      as [(? & ? & [=] & _) | (? & ? & ? & ? & ? & [=] & _)].
  - intros Hmade i cfg msg Hp.
    destruct (Hall (CallStart i cfg) msg Hp)
      as [(? & ? & _ & Hnil & _) | (? & ? & ? & ? & ? & [=] & _)]. done.
  - intros g go s ev msg Hg Hs Hrange Hp.
    destruct (Hall (Run g ev) msg Hp)
      as [(? & ? & [=] & _) | (g' & go' & s' & wd & ri & [= <- _] & Hg' & _ & Hs' & Hri & Hle & _)].
    assert (go' = go) as -> by congruence.
    assert (s' = s) as -> by congruence.
    pose proof (interval_positive _ _ Hri Hrange). lia.
Qed.

Lemma only_two_ways_to_panic_witness :
  reachable (lib := sample.lib) scenario.waiting /\
  (forall i msg, StopScheduler sample.noon i scenario.waiting <> Panic msg) /\
  (forall ev msg, run_step (lib := sample.lib) sample.noon 0 ev scenario.waiting
                  <> Panic msg).
Proof.
  split; [exact waiting_reachable |].
  pose proof (only_two_ways_to_panic (H := sample.lib) sample.noon
                scenario.waiting waiting_reachable) as (_ & Hstop & _ & Hrun).
  split; [exact Hstop |]. intros ev msg.
  apply (Hrun 0%nat (MkGo 0 (AtWait (84600 * Second)))
           (MkScheduler "job" ChanOpen true sample.echo_cfg)).
  - vm_compute. reflexivity.
  - vm_compute. reflexivity.
  - vm_compute. split; [reflexivity | discriminate].
Defined.

Lemma wrap64_id z : minDuration <= z <= maxDuration -> wrap64 z = z.
Proof.
  unfold minDuration, maxDuration, wrap64. intros Hz.
  rewrite Z.mod_small; lia.
Qed.

(** X7.  When the wait expires, a job with unit [h], [m] or [s] whose
    interval [RepeatValue * unit] fits in an [int64] enters its loop
    with exactly that interval if the repeat value is positive, and
    panics in [time.NewTicker] if it is zero or negative. *)
Theorem ticker_is_made_for_positive_values `{GoLib} clock g go s wd unit w :
  gos w !! g = Some go -> pc go = AtWait wd -> heap w !! self go = Some s ->
  (RepeatUnit (config s) = "h" /\ unit = Hour) \/
  (RepeatUnit (config s) = "m" /\ unit = Minute) \/
  (RepeatUnit (config s) = "s" /\ unit = Second) ->
  minDuration <= RepeatValue (config s) * unit <= maxDuration ->
  repeat_interval (config s) = Some (RepeatValue (config s) * unit) /\
  (0 < RepeatValue (config s) ->
   exists w', run_step clock g TimerFired w = Ok w' /\
     pc_of w' g = Some (AtTick (RepeatValue (config s) * unit)) /\
     schedulers w' = schedulers w /\ heap w' = heap w /\ sent w' = sent w /\
     last (logs w') = Some (logger.MkLogEntry (clock 0%nat) (msg_running (id s)))) /\
  (RepeatValue (config s) <= 0 ->
   run_step clock g TimerFired w = Panic "non-positive interval for NewTicker").
Proof.
  intros Hg Hpc Hs Hunit Hfit.
  assert (Hri : repeat_interval (config s) = Some (RepeatValue (config s) * unit)).
  { unfold repeat_interval, mul64.
    destruct Hunit as [[-> ->] | [[-> ->] | [-> ->]]]; simpl;
      by rewrite wrap64_id. }
  assert (Hpos : 0 < unit).
  { destruct Hunit as [[_ ->] | [[_ ->] | [_ ->]]]; reflexivity. }
  split; [exact Hri |]. split.
  - intros Hv. rewrite (run_step_at _ _ _ _ go s), Hpc by done.
    unfold run_ticker, NewTicker. rewrite Hri.
    destruct (Z.leb_spec (RepeatValue (config s) * unit) 0) as [Hle | _]; [nia |].
    eexists. split; [reflexivity |]. split; [by erewrite pc_of_set_pc |].
    repeat (split; [done |]). rewrite logs_set_pc. apply emit_one_last.
  - intros Hv. apply (nonpositive_interval_panics clock g go s wd _ w Hg Hpc Hs Hri).
    nia.
Qed.

Lemma ticker_is_made_for_positive_values_witness :
  exists w', run_step (lib := sample.lib) sample.noon 0 TimerFired scenario.waiting
             = Ok w' /\
    pc_of w' 0 = Some (AtTick (1 * Second)).
Proof.
  destruct (ticker_is_made_for_positive_values (H := sample.lib) sample.noon 0%nat
              (MkGo 0 (AtWait (84600 * Second)))
              (MkScheduler "job" ChanOpen true sample.echo_cfg)
              (84600 * Second) Second scenario.waiting)
    as (_ & Hpos & _).
  - vm_compute. reflexivity.
  - reflexivity.
  - vm_compute. reflexivity.
  - right. right. split; reflexivity.
  - vm_compute. split; discriminate.
  - destruct Hpos as (w' & Hstep & Hpc & _); [reflexivity |].
    exists w'. split; [exact Hstep | exact Hpc].
Defined.

(** X8.  A job whose start time does not parse reports the error, calls
    [StopScheduler] on its own identifier and returns: it never waits,
    it sends no request, its object ends stopped with its channel closed
    and its identifier free, and it takes no further transition. *)
Theorem unparsable_start_time_ends_the_job `{GoLib} clock clock' g go s today now err w :
  reachable w ->
  gos w !! g = Some go -> pc go = AtEntry -> heap w !! self go = Some s ->
  time_ParseInLocation "2006-01-02 15:04:05"
    (today +:+ " " +:+ StartTime (config s)) = Fail err ->
  exists w1 w2,
    run_step clock g (Scheduled today now) w = Ok w1 /\
    logs w1 = logger.AddLogs
                (stamp clock [msg_start_request (id s); msg_config (id s) (config s);
                              msg_parse_error (id s) err]) (logs w) /\
    pc_of w1 g = Some (AtSelfStop None) /\
    schedulers w1 = schedulers w /\ heap w1 = heap w /\
    run_step clock' g LockAcquired w1 = Ok w2 /\
    pc_of w2 g = Some Returned /\
    lookup_reg w2 (id s) = None /\
    (exists s', heap w2 !! self go = Some s' /\ running s' = false /\
                stopChan s' = ChanClosed) /\
    sent w2 = sent w /\
    (forall ev, run_step clock' g ev w2 = Disabled).
Proof.
  intros Hreach Hg Hpc Hs Hparse.
  pose proof (reachable_inv w Hreach) as Hinv.
  assert (Hstep1 : run_step clock g (Scheduled today now) w =
            Ok (set_pc g (AtSelfStop None)
                  (emit clock [msg_start_request (id s); msg_config (id s) (config s);
                               msg_parse_error (id s) err] w))).
  { rewrite (run_step_at _ _ _ _ go s), Hpc by done. unfold run_begin.
    by rewrite Hparse. }
  set (w1 := set_pc g (AtSelfStop None) _) in Hstep1.
  assert (Hinv1 : inv w1) by (by eapply inv_run_step).
  assert (Hg1 : gos w1 !! g = Some (MkGo (self go) (AtSelfStop None))).
  { unfold w1. by apply gos_set_pc. }
  assert (Hs1 : heap w1 !! self go = Some s) by done.
  destruct (StopScheduler_Ok clock' (id s) w1 Hinv1) as (w' & Hstop & _).
  destruct (StopScheduler_self _ _ _ _ _ Hinv1 Hs1 Hstop)
    as (Hgos & Hsent & Hfree & s' & Hs' & _ & _ & Hrun' & Hchan').
  exists w1, (set_pc g Returned w').
  split; [exact Hstep1 |]. split; [done |].
  split; [unfold w1; by erewrite pc_of_set_pc |]. split; [done |]. split; [done |].
  assert (Hg' : gos w' !! g = Some (MkGo (self go) (AtSelfStop None)))
    by (by rewrite Hgos).
  split.
  { rewrite (run_step_at _ _ _ _ _ s Hg1 Hs1). simpl. by rewrite Hstop. }
  split; [by erewrite pc_of_set_pc |]. split; [done |].
  split; [by exists s' |]. split; [simpl; by rewrite Hsent |].
  intros ev. apply (run_step_Returned _ _ _ _ (MkGo (self go) Returned)); [| done].
  by apply (gos_set_pc g Returned w' _ Hg').
Qed.

Lemma unparsable_start_time_ends_the_job_witness :
  reachable (lib := sample.lib) scenario.bad_time_started /\
  exists w1 w2,
    run_step (lib := sample.lib) sample.noon 0 (Scheduled "2026-10-31" sample.ten)
      scenario.bad_time_started = Ok w1 /\
    pc_of w1 0 = Some (AtSelfStop None) /\
    run_step (lib := sample.lib) sample.noon 0 LockAcquired w1 = Ok w2 /\
    pc_of w2 0 = Some Returned /\ lookup_reg w2 "job" = None /\ sent w2 = [].
Proof.
  split; [exact bad_time_started_reachable |].
  assert (Hparse : { err | time_ParseInLocation (GoLib := sample.lib)
                     "2006-01-02 15:04:05" "2026-10-31 9:30" = Fail err }).
  { vm_compute. eexists. reflexivity. }
  destruct Hparse as [err Hparse].
  destruct (unparsable_start_time_ends_the_job (H := sample.lib)
              sample.noon sample.noon 0%nat (MkGo 0 AtEntry)
              (MkScheduler "job" ChanOpen true scenario.bad_time_cfg)
              "2026-10-31" sample.ten err scenario.bad_time_started
              bad_time_started_reachable)
    as (w1 & w2 & H1 & _ & H3 & _ & _ & H6 & H7 & H8 & _ & H10 & _).
  - vm_compute. reflexivity.
  - reflexivity.
  - vm_compute. reflexivity.
  - exact Hparse.
  - exists w1, w2. repeat (split; [assumption |]). exact H10.
Defined.

(** X9.  When the start instant parsed for today lies within a day of
    the clock reading, the wait computed by [run] is never negative and
    never longer than 24 hours: it is the time left until the start
    instant if that has not passed, and the time left until the same
    instant of the next day if it has. *)
Theorem wait_is_at_most_a_day startTime now :
  now - 24 * Hour <= startTime <= now + 24 * Hour ->
  0 <= Time_Sub (rollover startTime now) now <= 24 * Hour /\
  (startTime < now ->
   Time_Sub (rollover startTime now) now = startTime + 24 * Hour - now) /\
  (now <= startTime -> Time_Sub (rollover startTime now) now = startTime - now).
Proof.
  unfold rollover, Time_Before, Time_Add, Time_Sub, minDuration, maxDuration.
  unfold Hour, Minute, Second. intros Hnear.
  destruct (Z.ltb_spec startTime now) as [Hlt | Hge];
    repeat case_match; lia.
Qed.

Lemma wait_is_at_most_a_day_witness :
  let start := 1793439000000000000 in
  let now := start + 1800 * Second in
  0 <= Time_Sub (rollover start now) now <= 24 * Hour /\
  Time_Sub (rollover start now) now = 84600 * Second.
Proof.
  intros start now.
  destruct (wait_is_at_most_a_day start now) as (Hbound & Hpast & _).
  - vm_compute. split; discriminate.
  - split; [exact Hbound |]. rewrite Hpast by reflexivity. reflexivity.
Defined.

(** X10.  A registered job that waits for its start time or for its
    next tick cannot take the stop case of its [select].  Once
    [StopScheduler] has been called on its identifier it can: it then
    logs that it was stopped (before its start, or in its loop), returns
    without having sent anything more, and takes no further transition;
    its identifier is free. *)
Theorem stopped_job_returns_at_its_select `{GoLib} clock clock' g go s w :
  reachable w ->
  gos w !! g = Some go -> heap w !! self go = Some s ->
  lookup_reg w (id s) = Some (self go) ->
  (exists wd, pc go = AtWait wd) \/ (exists d, pc go = AtTick d) ->
  run_step clock g StopSeen w = Disabled /\
  exists w1 w2,
    StopScheduler clock (id s) w = Ok w1 /\
    run_step clock' g StopSeen w1 = Ok w2 /\
    pc_of w2 g = Some Returned /\
    sent w2 = sent w /\
    lookup_reg w2 (id s) = None /\
    last (logs w2) =
      Some (logger.MkLogEntry (clock' 0%nat)
              (match pc go with
               | AtWait _ => msg_stopped_before_start (id s)
               | _ => msg_stopped (id s)
               end)) /\
    (forall ev, run_step clock' g ev w2 = Disabled).
Proof.
  intros Hinv%reachable_inv Hg Hs Hreg Hpc.
  destruct (reg_live _ Hinv _ _ Hreg) as (s0 & Hs0 & _ & Hrun).
  assert (s0 = s) as -> by congruence.
  pose proof (proj2 (live_open _ Hinv _ s Hs) Hrun) as Hopen.
  split.
  { rewrite (run_step_at _ _ _ _ go s) by done.
    destruct Hpc as [[wd ->] | [d ->]]; simpl; by rewrite Hopen. }
  destruct (StopScheduler_present clock (id s) (self go) w Hinv Hreg)
    as (s1 & Hs1 & _ & Hstop).
  assert (s1 = s) as -> by congruence.
  set (w1 := emit clock _ _) in Hstop.
  assert (Hlt : (self go < length (heap w))%nat) by (by eapply lookup_lt_Some).
  assert (Hg1 : gos w1 !! g = Some go) by done.
  assert (Hs1' : heap w1 !! self go = Some (stop_object s)).
  { unfold w1. simpl. by rewrite list_lookup_insert_eq. }
  assert (Hfree : lookup_reg w1 (id s) = None).
  { destruct (lookup_reg_Some _ _ _ Hreg) as (m & Hm & _).
    unfold lookup_reg, w1. simpl. rewrite Hm. simpl. apply lookup_delete_eq. }
  set (m := match pc go with
            | AtWait _ => msg_stopped_before_start (id s)
            | _ => msg_stopped (id s)
            end).
  assert (Hstep : run_step clock' g StopSeen w1 =
                  Ok (set_pc g Returned (emit clock' [m] w1))).
  { rewrite (run_step_at _ _ _ _ go (stop_object s)) by done.
    unfold m. destruct Hpc as [[wd ->] | [d ->]]; reflexivity. }
  exists w1, (set_pc g Returned (emit clock' [m] w1)).
  split; [exact Hstop |]. split; [exact Hstep |].
  split; [by erewrite pc_of_set_pc |]. split; [done |]. split; [done |].
  split; [rewrite logs_set_pc; apply emit_one_last |].
  intros ev. apply (run_step_Returned _ _ _ _ (MkGo (self go) Returned)); [| done].
  by apply (gos_set_pc g Returned _ go).
Qed.

Lemma stopped_job_returns_at_its_select_witness :
  reachable (lib := sample.lib) scenario.waiting /\
  lookup_reg scenario.waiting "job" = Some 0%nat /\
  run_step (lib := sample.lib) sample.noon 0 StopSeen scenario.waiting = Disabled /\
  exists w1 w2,
    StopScheduler sample.noon "job" scenario.waiting = Ok w1 /\
    run_step (lib := sample.lib) sample.noon 0 StopSeen w1 = Ok w2 /\
    pc_of w2 0 = Some Returned /\ sent w2 = [] /\
    last (logs w2) =
      Some (logger.MkLogEntry "12:00:00" (msg_stopped_before_start "job")).
Proof.
  split; [exact waiting_reachable |].
  assert (Hreg : lookup_reg scenario.waiting "job" = Some 0%nat)
    by (vm_compute; reflexivity).
  split; [exact Hreg |].
  destruct (stopped_job_returns_at_its_select (H := sample.lib)
              sample.noon sample.noon 0%nat (MkGo 0 (AtWait (84600 * Second)))
              (MkScheduler "job" ChanOpen true sample.echo_cfg) scenario.waiting
              waiting_reachable)
    as (Hoff & w1 & w2 & H1 & H2 & H3 & H4 & _ & H6 & _).
  - vm_compute. reflexivity.
  - vm_compute. reflexivity.
  - exact Hreg.
  - left. eexists. reflexivity.
  - split; [exact Hoff |]. exists w1, w2.
    repeat (split; [assumption |]). exact H6.
Defined.

End job_facts.

(** ** The requests sent *)

Module trace_facts.

Import golib scheduler scheduler_facts trace.

Section preservation.

Context {lib : GoLib}.

Lemma callAPI_request_stop s : callAPI_request (stop_object s) = callAPI_request s.
Proof. reflexivity. Qed.

Lemma sent_inv_nil w : sent w = [] -> sent_inv w.
Proof. intros Hnil. constructor; intros *; rewrite Hnil; set_solver. Qed.

Lemma sent_inv_emit clock msgs w : sent_inv w -> sent_inv (emit clock msgs w).
Proof. intros [H1 H2]. by constructor. Qed.

Lemma sent_inv_set_pc g p w go :
  sent_inv w -> gos w !! g = Some go ->
  (before_loop p = true -> before_loop (pc go) = true) ->
  sent_inv (set_pc g p w).
Proof.
  intros [H1 H2] Hg Hp. constructor; [exact H1 |].
  intros a req go' Hin Hgo'.
  destruct (lookup_set_pc _ _ _ _ _ Hgo') as (go0 & Hgo0 & _ & [[-> Hpc] | [_ Hpc]]).
  - assert (go0 = go) as -> by congruence.
    pose proof (H2 _ _ _ Hin Hg) as Hold. rewrite Hpc.
    destruct (before_loop p); [| done]. by rewrite Hp in Hold.
  - rewrite Hpc. by eapply H2.
Qed.

Lemma sent_inv_StartScheduler clock i cfg w w' :
  inv w -> sent_inv w -> StartScheduler clock i cfg w = Ok w' -> sent_inv w'.
Proof.
  intros Hinv [H1 H2] Hstart.
  destruct (StartScheduler_cases _ _ _ _ _ Hstart)
    as [(a & _ & [= ->]) | [(_ & [=]) | (m & Hm & Hmi & [= ->])]].
  - by constructor.
  - constructor; simpl.
    + intros a req Hin. destruct (H1 _ _ Hin) as (s & Hs & Hreq).
      exists s. split; [by apply lookup_app_l_Some | done].
    + intros a req go Hin Hgo. destruct (H1 _ _ Hin) as (s & Hs & _).
      apply lookup_lt_Some in Hs.
      rewrite lookup_app_l in Hgo by (rewrite (proj1 (gos_self _ Hinv)); lia).
      by eapply H2.
Qed.

Lemma sent_inv_StopScheduler clock i w w' :
  inv w -> sent_inv w -> StopScheduler clock i w = Ok w' -> sent_inv w'.
Proof.
  intros Hinv [H1 H2] Hstop. destruct (lookup_reg w i) as [b |] eqn:Hi.
  - destruct (StopScheduler_present clock i b w Hinv Hi) as (sb & Hsb & _ & Heq).
    rewrite Heq in Hstop. injection Hstop as <-. constructor; simpl; [| exact H2].
    intros a req Hin. destruct (H1 _ _ Hin) as (s & Hs & Hreq).
    destruct (decide (a = b)) as [-> | Hne].
    + assert (s = sb) as -> by congruence. exists (stop_object sb).
      rewrite list_lookup_insert_eq by (by eapply lookup_lt_Some).
      by rewrite callAPI_request_stop.
    + exists s. by rewrite list_lookup_insert_ne.
  - rewrite StopScheduler_absent in Hstop by done. injection Hstop as <-.
    by constructor.
Qed.

Lemma sent_inv_run_step clock g ev w w' :
  inv w -> sent_inv w -> run_step clock g ev w = Ok w' -> sent_inv w'.
Proof.
  intros Hinv Hsent. unfold run_step.
  destruct (gos w !! g) as [go |] eqn:Hg; [| done].
  destruct (heap w !! self go) as [s |] eqn:Hs; [| done].
  pose proof (proj2 (gos_self _ Hinv) g go Hg) as Hself.
  destruct (pc go) as [| wd | resume | d | d req |] eqn:Hpc;
    destruct ev as [today now | | | | err | err | code body]; try done.
  - unfold run_begin. destruct (time_ParseInLocation _ _) as [t | err];
      intros [= <-];
      (eapply sent_inv_set_pc; [by apply sent_inv_emit | exact Hg |]);
      by rewrite Hpc.
  - unfold run_ticker.
    destruct (repeat_interval (config s)) as [ri |].
    + destruct (NewTicker ri) as [d |]; [| done]. intros [= <-].
      by eapply sent_inv_set_pc; [by apply sent_inv_emit | exact Hg |].
    + intros [= <-].
      eapply sent_inv_set_pc; [by apply sent_inv_emit | exact Hg |].
      by rewrite Hpc.
  - destruct (closed (stopChan s)); [| done]. intros [= <-].
    by eapply sent_inv_set_pc; [by apply sent_inv_emit | exact Hg |].
  - destruct (StopScheduler clock (id s) w) as [w1 | |] eqn:Hstop; try done.
    intros [= <-].
    destruct (StopScheduler_self _ _ _ _ _ Hinv Hs Hstop) as (Hgos & _).
    eapply sent_inv_set_pc.
    + by eapply sent_inv_StopScheduler.
    + rewrite Hgos. exact Hg.
    + rewrite Hpc. by destruct resume.
  - unfold callAPI_send. destruct (callAPI_request s) as [msgs [req |]] eqn:Hreq;
      intros [= <-]; [| by apply sent_inv_emit].
    eapply sent_inv_set_pc; [| exact Hg | done].
    destruct Hsent as [H1 H2]. constructor; simpl.
    + intros a r [Hin | [= -> ->]%list_elem_of_singleton]%elem_of_app; [by apply H1 |].
      exists s. by rewrite Hreq.
    + intros a r go' [Hin | [= -> ->]%list_elem_of_singleton]%elem_of_app Hgo';
        [by eapply H2 |].
      rewrite Hself in Hgo'. assert (go' = go) as -> by congruence.
      by rewrite Hpc.
  - destruct (closed (stopChan s)); [| done]. intros [= <-].
    by eapply sent_inv_set_pc; [by apply sent_inv_emit | exact Hg |].
  - intros [= <-].
    by eapply sent_inv_set_pc; [by apply sent_inv_emit | exact Hg |].
  - intros [= <-].
    by eapply sent_inv_set_pc; [by apply sent_inv_emit | exact Hg |].
  - unfold callAPI_respond. destruct (code =? http.StatusOK); intros [= <-];
      by eapply sent_inv_set_pc; [by apply sent_inv_emit | exact Hg |].
Qed.

Lemma reachable_sent_inv w : reachable w -> sent_inv w.
Proof.
  induction 1 as [| | w clock l w' Hreach IH Hstep].
  - by apply sent_inv_nil.
  - by apply sent_inv_nil.
  - pose proof (reachable_inv w Hreach) as Hinv.
    destruct l as [i cfg | i | g ev]; simpl in Hstep.
    + by eapply sent_inv_StartScheduler.
    + by eapply sent_inv_StopScheduler.
    + by eapply sent_inv_run_step.
Qed.

End preservation.

Lemma post_in_flight_reachable :
  reachable (lib := sample.lib) scenario.post_in_flight.
Proof.
  apply (world_after_reachable
           (sample.wait_expires scenario.post_cfg ++ [Run 0 TimerFired])).
  vm_compute. reflexivity.
Qed.

(** X11.  No request is sent on behalf of a job before its start time
    is reached: in every reachable state a job that is still at the
    entry of [run], at its wait, or on its way out after a bad start
    time or unit has no request in the list of requests sent, and the
    sender of every request has reached the loop of [run]. *)
Theorem no_request_before_the_loop `{GoLib} w :
  reachable w ->
  (forall g go, gos w !! g = Some go -> before_loop (pc go) = true ->
     forall req, (self go, req) ∉ sent w) /\
  (forall a req, (a, req) ∈ sent w ->
     exists go, gos w !! a = Some go /\ self go = a /\
       pc go <> AtEntry /\ (forall wd, pc go <> AtWait wd) /\
       pc go <> AtSelfStop None).
Proof.
  intros Hreach. pose proof (reachable_inv w Hreach) as Hinv.
  destruct (reachable_sent_inv w Hreach) as [H1 H2].
  destruct (gos_self _ Hinv) as [Hlen Hself]. split.
  - intros g go Hg Hbefore req Hin. rewrite (Hself g go Hg) in Hin.
    by rewrite (H2 _ _ _ Hin Hg) in Hbefore.
  - intros a req Hin. destruct (H1 _ _ Hin) as (s & Hs & _).
    apply lookup_lt_Some in Hs. rewrite <- Hlen in Hs.
    destruct (lookup_lt_is_Some_2 _ _ Hs) as [go Hgo].
    exists go. split; [done |]. split; [by apply Hself |].
    pose proof (H2 _ _ _ Hin Hgo) as Hloop.
    repeat split; intros; intros Hpc; by rewrite Hpc in Hloop.
Qed.

Lemma no_request_before_the_loop_witness :
  reachable (lib := sample.lib) scenario.waiting /\
  forall req, (0%nat, req) ∉ sent scenario.waiting.
Proof.
  split; [exact job_facts.waiting_reachable |].
  pose proof (no_request_before_the_loop (H := sample.lib) scenario.waiting
                job_facts.waiting_reachable) as [Hbefore _].
  apply (Hbefore 0%nat (MkGo 0 (AtWait (84600 * Second)))).
  - vm_compute. reflexivity.
  - reflexivity.
Defined.

(** X12.  Every request handed to [client.Do] is the one [callAPI]
    builds from the configuration of its sender, so all requests of one
    job are the same request.  It is either a [POST] with the encoded
    payload as its body and the form content type, sent to the
    configured URL, or a [GET] without body and without header fields
    whose URL carries the encoded payload as its query; the method is
    [POST] exactly when the configured method is [POST] in upper case. *)
Theorem requests_follow_the_configuration `{GoLib} w :
  reachable w ->
  (forall a req, (a, req) ∈ sent w ->
     exists s, heap w !! a = Some s /\
       let form := Values_Encode ((fun v => [v]) <$> decode_payload (config s)) in
       (strings_ToUpper (HTTPMethod (config s)) = "POST" /\
        http.Method req = "POST" /\ http.Body req = Some form /\
        http.Header req =
          {["Content-Type" := ["application/x-www-form-urlencoded"]]} /\
        exists u, url_Parse (APIURL (config s)) = Val u /\
          http.URL req = set_Host (http.removeEmptyPort (Host u)) u) \/
       (strings_ToUpper (HTTPMethod (config s)) <> "POST" /\
        http.Method req = "GET" /\ http.Body req = None /\
        http.Header req = ∅ /\
        exists baseURL u, url_Parse (APIURL (config s)) = Val baseURL /\
          url_Parse (url_String (set_RawQuery form baseURL)) = Val u /\
          http.URL req = set_Host (http.removeEmptyPort (Host u)) u)) /\
  (forall a r1 r2, (a, r1) ∈ sent w -> (a, r2) ∈ sent w -> r1 = r2).
Proof.
  intros Hreach. destruct (reachable_sent_inv w Hreach) as [H1 _]. split.
  - intros a req Hin. destruct (H1 _ _ Hin) as (s & Hs & Hreq).
    exists s. split; [exact Hs |]. cbv zeta.
    destruct (decide (strings_ToUpper (HTTPMethod (config s)) = "POST"))
      as [Hpost | Hget].
    + left. split; [exact Hpost |].
      rewrite (callAPI_request_POST s Hpost) in Hreq. cbv zeta in Hreq.
      destruct (url_Parse (APIURL (config s))) as [u | err]; [| done].
      simpl in Hreq. injection Hreq as <-. simpl. eauto 10.
    + right. split; [exact Hget |].
      rewrite (callAPI_request_GET s Hget) in Hreq.
      destruct (url_Parse (APIURL (config s))) as [baseURL | err]; [| done].
      cbv zeta in Hreq.
      destruct (url_Parse (url_String _)) as [u | err] eqn:Hu; [| done].
      simpl in Hreq. injection Hreq as <-. simpl. eauto 10.
  - intros a r1 r2 Hin1 Hin2.
    destruct (H1 _ _ Hin1) as (s1 & Hs1 & Hr1).
    destruct (H1 _ _ Hin2) as (s2 & Hs2 & Hr2). congruence.
Qed.

Lemma requests_follow_the_configuration_witness :
  reachable (lib := sample.lib) scenario.post_in_flight /\
  (exists req, sent scenario.post_in_flight = [(0%nat, req)]) /\
  forall a req, (a, req) ∈ sent scenario.post_in_flight ->
    exists s, heap scenario.post_in_flight !! a = Some s /\
      (http.Method req = "POST" \/ http.Method req = "GET") /\
      (HTTPMethod (config s) = "post" -> http.Method req = "POST" /\
         http.Body req = Some "k=v").
Proof.
  split; [exact post_in_flight_reachable |].
  split; [vm_compute; eexists; reflexivity |].
  intros a req Hin.
  destruct (requests_follow_the_configuration (H := sample.lib)
              scenario.post_in_flight post_in_flight_reachable) as [Hshape _].
  destruct (Hshape a req Hin) as (s & Hs & Hcases).
  exists s. split; [exact Hs |].
  assert (Hpayload : Payload (config s) = Payload scenario.post_cfg).
  { destruct a as [| a]; [| done]. by injection Hs as <-. }
  destruct Hcases as [(Hup & Hm & Hb & _) | (Hup & Hm & _)].
  - split; [by left |]. intros _. split; [exact Hm |]. rewrite Hb.
    unfold decode_payload. rewrite Hpayload. vm_compute. reflexivity.
  - split; [by right |]. intros Hpost. rewrite Hpost in Hup. by destruct Hup.
Defined.

End trace_facts.

(** ** A job that stops another job *)

Module takeover_facts.

Import golib scheduler scheduler_facts.

Lemma taken_over_reachable : reachable (lib := sample.lib) scenario.taken_over.
Proof.
  apply (world_after_reachable
           (sample.to_flight ++
            [CallStop "job"; CallStart "job" scenario.hourly_cfg;
             Run 0 (Responded 200 "")])).
  vm_compute. reflexivity.
Qed.

(** X13.  The call [StopScheduler(s.id)] that a job makes for itself
    looks its identifier up in the registry.  If by then another job
    holds the identifier (the first one was stopped and a new one
    started under the same name), it is that other job which is
    stopped: its channel is closed, its [running] flag is cleared and
    the identifier is freed, although nobody asked for it. *)
Theorem self_stop_hits_the_holder_of_the_id `{GoLib} clock g go s resume b sb w :
  reachable w ->
  gos w !! g = Some go -> pc go = AtSelfStop resume ->
  heap w !! self go = Some s ->
  lookup_reg w (id s) = Some b -> b <> self go -> heap w !! b = Some sb ->
  running s = false /\ running sb = true /\ id sb = id s /\
  exists w', run_step clock g LockAcquired w = Ok w' /\
    heap w' !! b = Some (MkScheduler (id s) ChanClosed false (config sb)) /\
    lookup_reg w' (id s) = None /\
    gos w' !! b = gos w !! b /\
    pc_of w' g = Some (after_stop resume) /\
    last (logs w') = Some (logger.MkLogEntry (clock 0%nat) (msg_stopped (id s))).
Proof.
  intros Hinv%reachable_inv Hg Hpc Hs Hreg Hne Hb.
  destruct (reg_live _ Hinv _ _ Hreg) as (sb' & Hsb' & Hid & Hrun).
  assert (sb' = sb) as -> by congruence.
  assert (Hstopped : running s = false).
  { destruct (running s) eqn:Hr; [| done].
    pose proof (live_reg _ Hinv _ s Hs Hr). congruence. }
  split; [exact Hstopped |]. split; [exact Hrun |]. split; [exact Hid |].
  destruct (StopScheduler_present clock (id s) b w Hinv Hreg) as (s1 & Hs1 & _ & Hstop).
  assert (s1 = sb) as -> by congruence.
  rewrite (run_step_at _ _ _ _ go s), Hpc by done. rewrite Hstop.
  eexists. split; [reflexivity |].
  assert (Hneg : g <> b).
  { rewrite <- (proj2 (gos_self _ Hinv) g go Hg). congruence. }
  split; [| split; [| split; [| split]]].
  - simpl. rewrite list_lookup_insert_eq by (by eapply lookup_lt_Some).
    unfold stop_object. by rewrite Hid.
  - destruct (lookup_reg_Some _ _ _ Hreg) as (m & Hm & _).
    unfold lookup_reg. simpl. rewrite Hm. simpl. apply lookup_delete_eq.
  - simpl. by rewrite list_lookup_alter_ne.
  - by erewrite pc_of_set_pc.
  - rewrite job_facts.logs_set_pc. apply emit_one_last.
Qed.

Lemma self_stop_hits_the_holder_of_the_id_witness :
  reachable (lib := sample.lib) scenario.taken_over /\
  lookup_reg scenario.taken_over "job" = Some 1%nat /\
  exists w', run_step (lib := sample.lib) sample.noon 0 LockAcquired
               scenario.taken_over = Ok w' /\
    heap w' !! 1%nat = Some (MkScheduler "job" ChanClosed false scenario.hourly_cfg) /\
    lookup_reg w' "job" = None.
Proof.
  split; [exact taken_over_reachable |].
  assert (Hreg : lookup_reg scenario.taken_over "job" = Some 1%nat)
    by (vm_compute; reflexivity).
  split; [exact Hreg |].
  destruct (self_stop_hits_the_holder_of_the_id (H := sample.lib) sample.noon 0%nat
              (MkGo 0 (AtSelfStop (Some Second)))
              (MkScheduler "job" ChanClosed false sample.echo_cfg)
              (Some Second) 1%nat
              (MkScheduler "job" ChanOpen true scenario.hourly_cfg)
              scenario.taken_over taken_over_reachable)
    as (_ & _ & _ & w' & Hstep & Hheap & Hfree & _).
  - vm_compute. reflexivity.
  - reflexivity.
  - vm_compute. reflexivity.
  - exact Hreg.
  - discriminate.
  - vm_compute. reflexivity.
  - exists w'. split; [exact Hstep |]. split; [exact Hheap | exact Hfree].
Defined.

End takeover_facts.

(** ** The handlers and [main] *)

Module handler_facts.

Import golib scheduler scheduler_facts handler.

Lemma Error_fresh text code : Error text code fresh = error_response code text.
Proof.
  unfold Error, error_response, Write, WriteHeader, ResponseHeader_Set, fresh. simpl.
  by f_equal.
Qed.

(** X14.  [StartHandler] answers a body that does not decode with
    status 400 and changes nothing.  For a body that decodes it hands
    the identifier and the six fields, unchanged, to [StartScheduler]
    and then answers with status 200 and the same text whether the job
    was registered or the identifier was already taken and the request
    ignored; while the registry map is nil the handler panics instead. *)
Theorem start_handler_answers_alike clock w :
  (forall err, StartHandler clock (Fail err) fresh w =
     Answer w (error_response 400 text_bad_body)) /\
  (forall config a, lookup_reg w (ID config) = Some a ->
     StartHandler clock (Val config) fresh w =
     Answer (emit clock [msg_already_running (ID config)] w) (ok_response text_started)) /\
  (forall config m, schedulers w = Some m -> m !! ID config = None ->
     StartHandler clock (Val config) fresh w =
     Answer (MkWorld (Some (<[ID config := length (heap w)]> m))
               (heap w ++ [MkScheduler (ID config) ChanOpen true
                             (MkConfig (StartTime config) (RepeatValue config)
                                (RepeatUnit config) (APIURL config)
                                (HTTPMethod config) (Payload config))])
               (gos w ++ [MkGo (length (heap w)) AtEntry]) (logs w) (sent w))
       (ok_response text_started)) /\
  (forall config, schedulers w = None ->
     StartHandler clock (Val config) fresh w = Crash "assignment to entry in nil map").
Proof.
  split; [| split; [| split]].
  - intros err. unfold StartHandler. by rewrite Error_fresh.
  - intros config a Ha. unfold StartHandler, StartScheduler. by rewrite Ha.
  - intros config m Hm Hmi. unfold StartHandler.
    by rewrite (StartScheduler_fresh clock _ _ w m Hm Hmi).
  - intros config Hnil. unfold StartHandler, StartScheduler, lookup_reg.
    by rewrite Hnil.
Qed.

(** X15.  [StopHandler] answers a body that does not decode with status
    400 and changes nothing.  For a body that decodes it calls
    [StopScheduler] with the member [id], or with the empty identifier
    when the body has no such member, and in every reachable state it
    then answers with status 200 and the same text, whether a job was
    stopped or the identifier was unknown; the identifier is free
    afterwards. *)
Theorem stop_handler_answers_alike `{GoLib} clock w :
  (forall err, StopHandler clock (Fail err) fresh w =
     Answer w (error_response 400 text_bad_body)) /\
  (reachable w -> forall reqBody,
     let id := default "" (reqBody !! "id") in
     exists w', StopScheduler clock id w = Ok w' /\
       StopHandler clock (Val reqBody) fresh w =
         Answer w' (ok_response handler.text_stopped) /\
       lookup_reg w' id = None /\
       (lookup_reg w id = None -> w' = emit clock [msg_not_found id] w)) /\
  (forall reqBody, reqBody !! "id" = None ->
     StopHandler clock (Val reqBody) fresh w =
     StopHandler clock (Val {["id" := ""]}) fresh w).
Proof.
  split; [| split].
  - intros err. unfold StopHandler. by rewrite Error_fresh.
  - intros Hinv%reachable_inv reqBody id.
    destruct (StopScheduler_Ok clock id w Hinv) as (w' & Hstop & Hfree).
    exists w'. split; [exact Hstop |]. split; [| split; [exact Hfree |]].
    + unfold StopHandler. fold id. by rewrite Hstop.
    + intros Hnone. rewrite StopScheduler_absent in Hstop by done. congruence.
  - intros reqBody Hnone. unfold StopHandler. by rewrite Hnone.
Qed.

(** X16.  [main] calls [logger.Init] and [handler.Init] but never
    [scheduler.Init], so the process it builds serves with a nil
    registry map: in every state of that process each start request
    whose body decodes panics in [StartScheduler], no scheduler object
    or goroutine is ever created, no request is ever sent, and each stop
    request is answered with status 200 after logging that the
    identifier does not exist. *)
Theorem main_serves_without_a_registry `{GoLib} Encode w :
  serving Encode w ->
  schedulers w = None /\ heap w = [] /\ gos w = [] /\ sent w = [] /\
  (forall clock config,
     serve Encode clock (PostStart (Val config)) w =
     Crash "assignment to entry in nil map") /\
  (forall clock reqBody,
     serve Encode clock (PostStop (Val reqBody)) w =
     Answer (emit clock [msg_not_found (default "" (reqBody !! "id"))] w)
       (ok_response handler.text_stopped)) /\
  (forall clock g ev, run_step clock g ev w = Disabled).
Proof.
  intros Hserving.
  assert (Hempty : schedulers w = None /\ heap w = [] /\ gos w = [] /\ sent w = []).
  { induction Hserving as [| w clock c w' rw _ IH Hserve | w clock g ev w' _ IH Hstep].
    - done.
    - destruct IH as (Hnil & Hheap & Hgos & Hsent).
      destruct c as [[config | err] | [reqBody | err] | | read]; simpl in Hserve.
      + unfold StartScheduler, lookup_reg in Hserve. by rewrite Hnil in Hserve.
      + by injection Hserve as <- _.
      + unfold StopScheduler, lookup_reg in Hserve. rewrite Hnil in Hserve.
        by injection Hserve as <- _.
      + by injection Hserve as <- _.
      + by injection Hserve as <- _.
      + by injection Hserve as <- _.
    - destruct IH as (_ & _ & Hgos & _). unfold run_step in Hstep.
      by rewrite Hgos in Hstep. }
  destruct Hempty as (Hnil & Hheap & Hgos & Hsent).
  repeat (split; [assumption |]). split; [| split].
  - intros clock config. simpl. unfold StartHandler, StartScheduler, lookup_reg.
    by rewrite Hnil.
  - intros clock reqBody. simpl. unfold StopHandler, StopScheduler, lookup_reg.
    by rewrite Hnil.
  - intros clock g ev. unfold run_step. by rewrite Hgos.
Qed.

Lemma main_serves_without_a_registry_witness :
  serving (H := sample.lib) (fun _ => "") main /\
  forall clock config,
    serve (fun _ => "") clock (PostStart (Val config)) main =
    Crash "assignment to entry in nil map".
Proof.
  split; [apply serving_main |].
  pose proof (main_serves_without_a_registry (H := sample.lib) (fun _ => "") main
                (serving_main _)) as (_ & _ & _ & _ & Hstart & _).
  exact Hstart.
Defined.

End handler_facts.

(** ** The log of the process, and the fake server *)

Module service_facts.

Import golib scheduler scheduler_facts handler.

Lemma length_stamp clock msgs : length (stamp clock msgs) = length msgs.
Proof. unfold stamp. by rewrite length_imap. Qed.

Lemma StopScheduler_logs clock i w w' :
  inv w -> StopScheduler clock i w = Ok w' ->
  exists m, logs w' = logger.AddLogs (stamp clock [m]) (logs w).
Proof.
  intros Hinv Hstop. destruct (lookup_reg w i) as [a |] eqn:Hi.
  - destruct (StopScheduler_present clock i a w Hinv Hi) as (s & _ & _ & Heq).
    rewrite Heq in Hstop. injection Hstop as <-. by eexists.
  - rewrite StopScheduler_absent in Hstop by done. injection Hstop as <-.
    by eexists.
Qed.

(** Every transition only calls [AddLog], at most three times. *)
Lemma step_logs `{GoLib} clock l w w' :
  inv w -> step clock l w = Ok w' ->
  exists calls, (length calls <= 3)%nat /\
    logs w' = logger.AddLogs calls (logs w).
Proof.
  intros Hinv. destruct l as [i cfg | i | g ev]; simpl.
  - intros Hstart. destruct (StartScheduler_cases _ _ _ _ _ Hstart)
      as [(a & _ & [= ->]) | [(_ & [=]) | (m & _ & _ & [= ->])]].
    + eexists. split; [| reflexivity]. rewrite length_stamp. simpl. lia.
    + exists []. split; [simpl; lia | done].
  - intros Hstop. destruct (StopScheduler_logs _ _ _ _ Hinv Hstop) as (m & ->).
    eexists. split; [| reflexivity]. rewrite length_stamp. simpl. lia.
  - unfold run_step.
    destruct (gos w !! g) as [go |] eqn:Hg; [| done].
    destruct (heap w !! self go) as [s |] eqn:Hs; [| done].
    destruct (pc go) as [| wd | resume | d | d req |] eqn:Hpc;
      destruct ev as [today now | | | | err | err | code body]; try done.
    + unfold run_begin. destruct (time_ParseInLocation _ _) as [t | err];
        intros [= <-]; (eexists; split; [| reflexivity]);
        rewrite length_stamp; simpl; lia.
    + unfold run_ticker. destruct (repeat_interval (config s)) as [ri |].
      * destruct (NewTicker ri) as [d |]; [| done]. intros [= <-].
        eexists; split; [| reflexivity]. rewrite length_stamp. simpl. lia.
      * intros [= <-]. eexists; split; [| reflexivity].
        rewrite length_stamp. simpl. lia.
    + destruct (closed (stopChan s)); [| done]. intros [= <-].
      eexists; split; [| reflexivity]. rewrite length_stamp. simpl. lia.
    + destruct (StopScheduler clock (id s) w) as [w1 | |] eqn:Hstop; try done.
      intros [= <-]. destruct (StopScheduler_logs _ _ _ _ Hinv Hstop) as (m & Hm).
      eexists. split; [| exact Hm]. rewrite length_stamp. simpl. lia.
    + unfold callAPI_send.
      pose proof (callAPI_request_msgs s) as Hmsgs.
      destruct (callAPI_request s) as [msgs [req |]]; simpl in Hmsgs;
        intros [= <-]; (eexists; split; [| reflexivity]);
        rewrite length_stamp; simpl;
        destruct Hmsgs as [-> | [err [-> | ->]]]; simpl; lia.
    + destruct (closed (stopChan s)); [| done]. intros [= <-].
      eexists; split; [| reflexivity]. rewrite length_stamp. simpl. lia.
    + intros [= <-]. eexists; split; [| reflexivity].
      rewrite length_stamp. simpl. lia.
    + intros [= <-]. eexists; split; [| reflexivity].
      rewrite length_stamp. simpl. lia.
    + unfold callAPI_respond. destruct (code =? http.StatusOK); intros [= <-];
        (eexists; split; [| reflexivity]); rewrite length_stamp; simpl; lia.
Qed.

Lemma reachable_logs_cap `{GoLib} w : reachable w -> (length (logs w) <= logger.cap)%nat.
Proof.
  induction 1 as [| | w clock l w' Hreach IH Hstep].
  - simpl. unfold logger.cap. lia.
  - simpl. unfold logger.cap. lia.
  - destruct (step_logs clock l w w' (reachable_inv w Hreach) Hstep)
      as (calls & _ & ->).
    by apply logger_facts.AddLogs_length.
Qed.

(** X17.  The log of the process never holds more than 100 entries,
    whatever transitions the registry and the jobs have taken.  Every
    transition changes the log only by [AddLog] calls, at most three of
    them, so one transition pushes at most three old lines out.
    [LogsHandler] answers with the encoding of the log as it is and
    content type [application/json]. *)
Theorem process_log_stays_within_the_cap `{GoLib} Encode w :
  reachable w ->
  (length (logs w) <= 100)%nat /\
  (forall clock l w', step clock l w = Ok w' ->
     exists calls, (length calls <= 3)%nat /\
       logs w' = logger.AddLogs calls (logs w) /\
       (length (logs w') <= 100)%nat) /\
  LogsHandler Encode fresh w =
    MkResponse (Some 200) {["Content-Type" := ["application/json"]]}
      (Encode (logs w)).
Proof.
  intros Hreach. split; [exact (reachable_logs_cap w Hreach) |]. split; [| done].
  intros clock l w' Hstep.
  destruct (step_logs clock l w w' (reachable_inv w Hreach) Hstep) as (calls & Hlen & Heq).
  exists calls. split; [exact Hlen |]. split; [exact Heq |].
  apply (reachable_logs_cap w'). by eapply reach_step.
Qed.

Lemma process_log_stays_within_the_cap_witness :
  reachable (lib := sample.lib) sample.in_flight /\
  (length (logs sample.in_flight) <= 100)%nat.
Proof.
  split; [exact in_flight_reachable |].
  exact (proj1 (process_log_stays_within_the_cap (H := sample.lib) (fun _ => "")
                  sample.in_flight in_flight_reachable)).
Defined.

(** X18.  [FakeServerHandler] answers with status 200 and the request
    body, byte for byte, or with status 500 when the body cannot be
    read.  A job whose request is answered by it therefore gets status
    200, with an empty body for a [GET], and stops itself after this
    first response: its identifier is freed, its object is stopped and
    its loop can return. *)
Theorem fake_server_ends_the_job `{GoLib} clock g go s d req w :
  reachable w ->
  gos w !! g = Some go -> pc go = AtDo d req -> heap w !! self go = Some s ->
  (forall data, FakeServerHandler (Val data) fresh =
     MkResponse (Some 200) {["Content-Type" := ["application/json"]]} data) /\
  (forall err, FakeServerHandler (Fail err) fresh =
     error_response 500 text_unreadable) /\
  StatusCode (fake_server req) = 200 /\
  body (fake_server req) = default "" (http.Body req) /\
  exists w',
    handle_response clock g (StatusCode (fake_server req)) (body (fake_server req)) w
      = Ok w' /\
    lookup_reg w' (id s) = None /\
    pc_of w' g = Some (AtTick d) /\
    (exists s', heap w' !! self go = Some s' /\ running s' = false /\
                stopChan s' = ChanClosed) /\
    exists w'', run_step clock g StopSeen w' = Ok w'' /\ pc_of w'' g = Some Returned.
Proof.
  intros Hreach Hg Hpc Hs.
  pose proof (reachable_inv w Hreach) as Hinv.
  split; [done |]. split; [intros err; apply handler_facts.Error_fresh |].
  split; [done |]. split; [done |].
  change (StatusCode (fake_server req)) with 200.
  set (text := body (fake_server req)).
  assert (Hstep1 : run_step clock g (Responded 200 text) w =
            Ok (set_pc g (AtSelfStop (Some d))
                  (emit clock [msg_status (id s) 200; msg_body (id s) text;
                               msg_ok_stop (id s)] w))).
  { rewrite (run_step_at _ _ _ _ go s), Hpc by done. reflexivity. }
  set (w1 := set_pc g (AtSelfStop (Some d)) _) in Hstep1.
  assert (Hinv1 : inv w1) by (by eapply inv_run_step).
  assert (Hg1 : gos w1 !! g = Some (MkGo (self go) (AtSelfStop (Some d)))).
  { unfold w1. by apply gos_set_pc. }
  assert (Hs1 : heap w1 !! self go = Some s) by done.
  destruct (StopScheduler_Ok clock (id s) w1 Hinv1) as (w2 & Hstop & _).
  destruct (StopScheduler_self _ _ _ _ _ Hinv1 Hs1 Hstop)
    as (Hgos & _ & Hfree & s' & Hs' & _ & Hid' & Hrun' & Hchan').
  assert (Hg2 : gos w2 !! g = Some (MkGo (self go) (AtSelfStop (Some d))))
    by (by rewrite Hgos).
  exists (set_pc g (AtTick d) w2). split.
  { unfold handle_response. rewrite Hstep1.
    replace (pc_of w1 g) with (Some (AtSelfStop (Some d)))
      by (unfold w1; by erewrite pc_of_set_pc).
    rewrite (run_step_at _ _ _ _ _ s Hg1 Hs1). simpl. by rewrite Hstop. }
  split; [done |]. split; [by erewrite pc_of_set_pc |].
  split; [by exists s' |].
  rewrite (run_step_at _ _ _ _ (MkGo (self go) (AtTick d)) s');
    [| by apply (gos_set_pc g (AtTick d) w2 _ Hg2) | done].
  simpl. rewrite Hchan'. simpl. eexists. split; [reflexivity |].
  erewrite pc_of_set_pc; [done |]. by apply (gos_set_pc g (AtTick d) w2 _ Hg2).
Qed.

Lemma fake_server_ends_the_job_witness :
  reachable (lib := sample.lib) sample.in_flight /\
  exists req w',
    pc_of sample.in_flight 0 = Some (AtDo Second req) /\
    body (fake_server req) = "" /\
    handle_response (H := sample.lib) sample.noon 0 200 "" sample.in_flight = Ok w' /\
    lookup_reg w' "job" = None.
Proof.
  split; [exact in_flight_reachable |].
  assert (Hreq : { req | gos sample.in_flight !! 0%nat = Some (MkGo 0 (AtDo Second req))
                         /\ http.Body req = None }).
  { vm_compute. eexists. split; reflexivity. }
  destruct Hreq as (req & Hgo & Hbody).
  destruct (fake_server_ends_the_job (H := sample.lib) sample.noon 0%nat
              (MkGo 0 (AtDo Second req))
              (MkScheduler "job" ChanOpen true sample.echo_cfg) Second req
              sample.in_flight in_flight_reachable Hgo eq_refl)
    as (_ & _ & Hcode & Htext & w' & Hresp & Hfree & _).
  - vm_compute. reflexivity.
  - rewrite Hbody in Htext. change (default "" None) with "" in Htext.
    exists req, w'. split; [unfold pc_of; by rewrite Hgo |].
    split; [exact Htext |]. rewrite Hcode, Htext in Hresp.
    split; [exact Hresp | exact Hfree].
Defined.

End service_facts.

(** ** The encoding of the payload *)

Module encoding_facts.

Import golib scheduler scheduler_facts encoding.

Lemma unescape_escape_char c r :
  QueryUnescape (QueryEscape (String c r)) = String c <$> QueryUnescape (QueryEscape r).
Proof. destruct c as [[] [] [] [] [] [] [] []]; reflexivity. Qed.

Lemma safe_escape_char c r :
  forallb query_safe (list_ascii_of_string (QueryEscape (String c r))) =
  forallb query_safe (list_ascii_of_string (QueryEscape r)).
Proof. destruct c as [[] [] [] [] [] [] [] []]; reflexivity. Qed.

Lemma query_safe_not_separator c :
  query_safe c = true ->
  Ascii.eqb c "&" = false /\ Ascii.eqb c "=" = false /\ Ascii.eqb c " " = false.
Proof. destruct c as [[] [] [] [] [] [] [] []]; done. Qed.

Lemma QueryUnescape_QueryEscape s : QueryUnescape (QueryEscape s) = Some s.
Proof.
  induction s as [| c r IH]; [done |]. by rewrite unescape_escape_char, IH.
Qed.

Lemma QueryEscape_inj s t : QueryEscape s = QueryEscape t -> s = t.
Proof.
  intros Heq. apply (f_equal QueryUnescape) in Heq.
  rewrite !QueryUnescape_QueryEscape in Heq. congruence.
Qed.

Lemma QueryEscape_safe s :
  forallb query_safe (list_ascii_of_string (QueryEscape s)) = true.
Proof. induction s as [| c r IH]; [done |]. by rewrite safe_escape_char. Qed.

Lemma safe_free s :
  forallb query_safe (list_ascii_of_string s) = true ->
  occurs "&" s = false /\ occurs "=" s = false /\ occurs " " s = false.
Proof.
  induction s as [| c r IH]; [done |]. simpl.
  intros [Hc Hr]%andb_true_iff.
  destruct (query_safe_not_separator c Hc) as (-> & -> & ->).
  by apply IH.
Qed.

(** X19.  [QueryEscape], which writes every key and value of the
    payload into the query or the form body, loses nothing:
    [QueryUnescape] gives the text back, so different texts are escaped
    differently; and the escaped text consists of letters, digits and
    [-_.~%+] only, so it contains no [&], no [=] and no space. *)
Theorem escaping_loses_nothing s :
  QueryUnescape (QueryEscape s) = Some s /\
  (forall t, QueryEscape s = QueryEscape t -> s = t) /\
  forallb query_safe (list_ascii_of_string (QueryEscape s)) = true /\
  occurs "&" (QueryEscape s) = false /\
  occurs "=" (QueryEscape s) = false /\
  occurs " " (QueryEscape s) = false.
Proof.
  split; [apply QueryUnescape_QueryEscape |].
  split; [intros t; apply QueryEscape_inj |].
  split; [apply QueryEscape_safe |].
  apply safe_free, QueryEscape_safe.
Qed.

(** *** [Values.Encode] on a payload *)

Lemma occurs_app c a b : occurs c (a +:+ b) = occurs c a || occurs c b.
Proof. induction a as [| x a IH]; simpl; [done |]. by rewrite IH, orb_assoc. Qed.

Lemma split_at c a a' b b' :
  occurs c a = false -> occurs c a' = false ->
  a +:+ String c b = a' +:+ String c b' -> a = a' /\ b = b'.
Proof.
  revert a'. induction a as [| x a IH]; intros [| x' a']; simpl.
  - intros _ _ [= ->]. done.
  - intros _ [Hx _]%orb_false_iff [= <- _]. by rewrite Ascii.eqb_refl in Hx.
  - intros [Hx _]%orb_false_iff _ [= -> _]. by rewrite Ascii.eqb_refl in Hx.
  - intros [_ Ha]%orb_false_iff [_ Ha']%orb_false_iff [= -> Heq].
    destruct (IH a' Ha Ha' Heq) as [-> ->]. done.
Qed.

Lemma pair_text_inj kv kv' : pair_text kv = pair_text kv' -> kv = kv'.
Proof.
  destruct kv as [k v], kv' as [k' v']. unfold pair_text. simpl. intros Heq.
  destruct (split_at "=" (QueryEscape k) (QueryEscape k') (QueryEscape v)
              (QueryEscape v')) as [Hk Hv]; [| | exact Heq |].
  - apply safe_free, QueryEscape_safe.
  - apply safe_free, QueryEscape_safe.
  - by rewrite (QueryEscape_inj _ _ Hk), (QueryEscape_inj _ _ Hv).
Qed.

Lemma pair_text_free kv : occurs "&" (pair_text kv) = false.
Proof.
  unfold pair_text. rewrite occurs_app.
  destruct (safe_free _ (QueryEscape_safe kv.1)) as (H1 & _).
  destruct (safe_free _ (QueryEscape_safe kv.2)) as (H2 & _).
  rewrite H1. simpl. exact H2.
Qed.

Lemma pair_text_cons kv : exists c r, pair_text kv = String c r.
Proof.
  unfold pair_text. destruct (QueryEscape kv.1) as [| c r]; simpl; eauto.
Qed.

Lemma join_amp_cons x y r : join_amp (x :: y :: r) = x +:+ String "&" (join_amp (y :: r)).
Proof. reflexivity. Qed.

Lemma join_amp_inj l1 : forall l2,
  join_amp (map pair_text l1) = join_amp (map pair_text l2) -> l1 = l2.
Proof.
  induction l1 as [| x [| x' l1] IH]; intros [| y [| y' l2]]; try done.
  - simpl. destruct (pair_text_cons y) as (c & r & ->). done.
  - change (map pair_text (y :: y' :: l2))
      with (pair_text y :: pair_text y' :: map pair_text l2).
    rewrite join_amp_cons. destruct (pair_text_cons y) as (c & r & ->). done.
  - simpl. destruct (pair_text_cons x) as (c & r & ->). done.
  - simpl. by intros ->%pair_text_inj.
  - change (map pair_text (y :: y' :: l2))
      with (pair_text y :: pair_text y' :: map pair_text l2).
    rewrite join_amp_cons. simpl join_amp. intros Heq.
    pose proof (pair_text_free x) as Hfree. rewrite Heq, occurs_app in Hfree.
    simpl in Hfree. by rewrite orb_true_r in Hfree.
  - change (map pair_text (x :: x' :: l1))
      with (pair_text x :: pair_text x' :: map pair_text l1).
    rewrite join_amp_cons. destruct (pair_text_cons x) as (c & r & ->). done.
  - change (map pair_text (x :: x' :: l1))
      with (pair_text x :: pair_text x' :: map pair_text l1).
    rewrite join_amp_cons. simpl join_amp. intros Heq.
    pose proof (pair_text_free y) as Hfree. rewrite <- Heq, occurs_app in Hfree.
    simpl in Hfree. by rewrite orb_true_r in Hfree.
  - change (map pair_text (x :: x' :: l1))
      with (pair_text x :: pair_text x' :: map pair_text l1).
    change (map pair_text (y :: y' :: l2))
      with (pair_text y :: pair_text y' :: map pair_text l2).
    rewrite !join_amp_cons. intros Heq.
    destruct (split_at "&" _ _ _ _ (pair_text_free x) (pair_text_free y) Heq)
      as [Hxy Hrest].
    apply pair_text_inj in Hxy as ->. f_equal. by apply IH.
Qed.

Lemma sorted_keys_spec m k : k ∈ sorted_keys m <-> is_Some (m !! k).
Proof.
  unfold sorted_keys. rewrite merge_sort_Permutation, list_elem_of_fmap. split.
  - intros ([k' l] & -> & Hin%elem_of_map_to_list). simpl.
    rewrite lookup_fmap in Hin. by destruct (m !! k').
  - intros [v Hv]. exists (k, [v]). split; [done |].
    apply elem_of_map_to_list. by rewrite lookup_fmap, Hv.
Qed.

Lemma encode_pairs m l :
  (forall k, k ∈ l -> is_Some (m !! k)) ->
  concat (map (encode_key ((fun v => [v]) <$> m)) l) =
  map pair_text (map (fun k => (k, default "" (m !! k))) l).
Proof.
  induction l as [| k l IH]; intros Hl; [done |]. simpl.
  rewrite IH by (intros k' Hk'; apply Hl; by right). f_equal.
  destruct (Hl k) as [v Hv]; [by left |].
  unfold encode_key. by rewrite lookup_fmap, Hv.
Qed.

Lemma Values_Encode_pairs m :
  Values_Encode ((fun v => [v]) <$> m) =
  join_amp (map pair_text (map (fun k => (k, default "" (m !! k))) (sorted_keys m))).
Proof.
  unfold Values_Encode. fold (sorted_keys m).
  rewrite encode_pairs; [done |]. intros k. apply sorted_keys_spec.
Qed.

Lemma Values_Encode_inj (m1 m2 : gmap string string) :
  Values_Encode ((fun v => [v]) <$> m1) = Values_Encode ((fun v => [v]) <$> m2) ->
  m1 = m2.
Proof.
  rewrite !Values_Encode_pairs. intros Heq%join_amp_inj.
  assert (Hkeys : sorted_keys m1 = sorted_keys m2).
  { apply (f_equal (map fst)) in Heq. rewrite !map_map in Heq. simpl in Heq.
    by rewrite !map_id in Heq. }
  apply map_eq. intros k.
  destruct (m1 !! k) as [v1 |] eqn:H1.
  - assert (Hin : k ∈ sorted_keys m1) by (apply sorted_keys_spec; eauto).
    apply list_elem_of_lookup in Hin as [n Hn].
    assert (Hn2 : sorted_keys m2 !! n = Some k) by (by rewrite <- Hkeys).
    apply (f_equal (fun l => l !! n)) in Heq.
    rewrite !list_lookup_fmap, Hn, Hn2 in Heq. simpl in Heq. rewrite H1 in Heq.
    assert (Hin2 : is_Some (m2 !! k)).
    { apply sorted_keys_spec. rewrite <- Hkeys. by eapply list_elem_of_lookup_2. }
    destruct Hin2 as [v2 H2]. rewrite H2 in Heq. simpl in Heq. congruence.
  - destruct (m2 !! k) as [v2 |] eqn:H2; [| done].
    assert (Hin : k ∈ sorted_keys m2) by (apply sorted_keys_spec; eauto).
    rewrite <- Hkeys in Hin. apply sorted_keys_spec in Hin as [v Hv]. congruence.
Qed.

(** X20.  The query string of a [GET] and the form body of a [POST]
    determine the payload mapping: two mappings that differ in a key or
    in a value are never encoded alike.  The empty mapping gives the
    empty text, and a mapping with one member gives [key=value] with
    both sides escaped. *)
Theorem payload_encoding_is_faithful :
  (forall m1 m2 : gmap string string,
     Values_Encode (range_Add m1) = Values_Encode (range_Add m2) -> m1 = m2) /\
  Values_Encode (range_Add ∅) = "" /\
  (forall k v, Values_Encode (range_Add {[k := v]}) =
     QueryEscape k +:+ "=" +:+ QueryEscape v).
Proof.
  split; [| split].
  - intros m1 m2. rewrite !range_Add_fmap. apply Values_Encode_inj.
  - reflexivity.
  - intros k v. rewrite range_Add_fmap, map_fmap_singleton.
    unfold Values_Encode. rewrite map_to_list_singleton. simpl.
    unfold encode_key. rewrite lookup_singleton_eq. simpl. reflexivity.
Qed.

End encoding_facts.

(** ** The decoding of the payload *)

Module payload_facts.

Import golib scheduler json json_facts encoding.

Lemma list_ascii_app a b :
  list_ascii_of_string (a +:+ b) = list_ascii_of_string a ++ list_ascii_of_string b.
Proof. induction a as [| c a IH]; simpl; [done |]. by rewrite IH. Qed.

Lemma foldl_step {A B} (f : A -> B -> A) a x l :
  foldl f a (x :: l) = foldl f (f a x) l.
Proof. reflexivity. Qed.

Lemma plain_char_spec c :
  plain_char c = true ->
  Ascii.eqb c dquote = false /\ Ascii.eqb c "\" = false /\
  (N_of_ascii c <? 32)%N = false /\ (N_of_ascii c <? 128)%N = true.
Proof. destruct c as [[] [] [] [] [] [] [] []]; done. Qed.

Lemma unquote_plain l : forallb plain_char l = true -> unquote l = Some l.
Proof.
  induction l as [| c r IH]; [done |]. simpl forallb.
  intros [Hc Hr]%andb_true_iff.
  destruct (plain_char_spec c Hc) as (Hq & Hb & Hlo & Hhi).
  simpl. rewrite Hb, Hq, Hlo, Hhi. simpl. by rewrite (IH Hr).
Qed.

Lemma unquoted_plain s : plain s = true -> unquoted (rev (list_ascii_of_string s)) = s.
Proof.
  intros Hs. unfold unquoted. rewrite rev_involutive, unquote_plain by done.
  simpl. apply string_of_list_ascii_of_string.
Qed.

Lemma fold_scan l : forall d,
  scan (foldl decode_step d l) = foldl scan_step (scan d) l.
Proof.
  induction l as [| c l IH]; intros d; [done |]. simpl.
  by rewrite IH, scan_decode_step.
Qed.

(** The bytes between the quotes of a key or of an element. *)
Lemma string_body ps l : forall lt k t e,
  ps = [parseObjectKey] \/ ps = [parseObjectValue] ->
  forallb plain_char l = true ->
  foldl decode_step (MkDecode (MkScanner stateInString ps) lt k t e) l =
  MkDecode (MkScanner stateInString ps) (rev l ++ lt) k t e.
Proof.
  induction l as [| c l IH]; intros lt k t e Hps; [done |]. simpl forallb.
  intros [Hc Hl]%andb_true_iff.
  destruct (plain_char_spec c Hc) as (Hq & Hb & Hlo & _).
  simpl foldl.
  assert (Hstep : decode_step (MkDecode (MkScanner stateInString ps) lt k t e) c =
                  MkDecode (MkScanner stateInString ps) (c :: lt) k t e).
  { unfold decode_step, scan_step. simpl. rewrite Hq, Hb, Hlo.
    by destruct Hps as [-> | ->]. }
  rewrite Hstep, IH by done. simpl. by rewrite <- app_assoc.
Qed.

Lemma close_quote_key lt k t e :
  decode_step (MkDecode (MkScanner stateInString [parseObjectKey]) lt k t e) dquote =
  MkDecode (MkScanner stateEndValue [parseObjectKey]) [] (unquoted lt) t e.
Proof. reflexivity. Qed.

Lemma close_quote_value lt k t e :
  decode_step (MkDecode (MkScanner stateInString [parseObjectValue]) lt k t e) dquote =
  MkDecode (MkScanner stateEndValue [parseObjectValue]) [] k (<[k := unquoted lt]> t) e.
Proof. reflexivity. Qed.

Lemma literal_bytes s :
  list_ascii_of_string (literal s) = dquote :: list_ascii_of_string s ++ [dquote].
Proof. unfold literal. simpl. by rewrite list_ascii_app. Qed.

Lemma key_literal st s lt k t e :
  st = stateBeginString \/ st = stateBeginStringOrEmpty ->
  plain s = true ->
  foldl decode_step (MkDecode (MkScanner st [parseObjectKey]) lt k t e)
    (list_ascii_of_string (literal s)) =
  MkDecode (MkScanner stateEndValue [parseObjectKey]) [] s t e.
Proof.
  intros Hst Hs. rewrite literal_bytes. simpl foldl.
  assert (Hopen : decode_step (MkDecode (MkScanner st [parseObjectKey]) lt k t e) dquote =
                  MkDecode (MkScanner stateInString [parseObjectKey]) [] k t e).
  { by destruct Hst as [-> | ->]. }
  rewrite Hopen, foldl_app, string_body by (first [by left | exact Hs]).
  simpl foldl. rewrite close_quote_key, app_nil_r. by rewrite unquoted_plain.
Qed.

Lemma value_literal s lt k t e :
  plain s = true ->
  foldl decode_step (MkDecode (MkScanner stateBeginValue [parseObjectValue]) lt k t e)
    (list_ascii_of_string (literal s)) =
  MkDecode (MkScanner stateEndValue [parseObjectValue]) [] k (<[k := s]> t) e.
Proof.
  intros Hs. rewrite literal_bytes. simpl foldl.
  change (decode_step (MkDecode (MkScanner stateBeginValue [parseObjectValue]) lt k t e) dquote)
    with (MkDecode (MkScanner stateInString [parseObjectValue]) [] k t e).
  rewrite foldl_app, string_body by (first [by right | exact Hs]).
  simpl foldl. rewrite close_quote_value, app_nil_r. by rewrite unquoted_plain.
Qed.

Lemma member_bytes st kv lt k t e :
  st = stateBeginString \/ st = stateBeginStringOrEmpty ->
  plain kv.1 = true -> plain kv.2 = true ->
  foldl decode_step (MkDecode (MkScanner st [parseObjectKey]) lt k t e)
    (list_ascii_of_string (member kv)) =
  MkDecode (MkScanner stateEndValue [parseObjectValue]) [] kv.1 (<[kv.1 := kv.2]> t) e.
Proof.
  intros Hst H1 H2. unfold member.
  rewrite list_ascii_app, foldl_app, key_literal by done.
  change (list_ascii_of_string (":" +:+ literal kv.2))
    with (":"%char :: list_ascii_of_string (literal kv.2)).
  simpl foldl.
  change (decode_step (MkDecode (MkScanner stateEndValue [parseObjectKey]) [] kv.1 t e) ":")
    with (MkDecode (MkScanner stateBeginValue [parseObjectValue]) [] kv.1 t e).
  by apply value_literal.
Qed.

Lemma members_bytes kvs : forall st kv lt k t e,
  st = stateBeginString \/ st = stateBeginStringOrEmpty ->
  Forall (fun kv => plain kv.1 = true /\ plain kv.2 = true) (kv :: kvs) ->
  exists k',
    foldl decode_step (MkDecode (MkScanner st [parseObjectKey]) lt k t e)
      (list_ascii_of_string (join_comma (map member (kv :: kvs)))) =
    MkDecode (MkScanner stateEndValue [parseObjectValue]) [] k'
      (foldl (fun m kv => <[kv.1 := kv.2]> m) t (kv :: kvs)) e.
Proof.
  induction kvs as [| kv' kvs IH]; intros st kv lt k t e Hst Hall.
  - apply Forall_cons in Hall as [[H1 H2] _]. exists kv.1. simpl.
    by apply member_bytes.
  - apply Forall_cons in Hall as [[H1 H2] Hall].
    change (join_comma (map member (kv :: kv' :: kvs)))
      with (member kv +:+ "," +:+ join_comma (map member (kv' :: kvs))).
    rewrite list_ascii_app, foldl_app, member_bytes by done.
    change (list_ascii_of_string ("," +:+ join_comma (map member (kv' :: kvs))))
      with (","%char :: list_ascii_of_string (join_comma (map member (kv' :: kvs)))).
    rewrite foldl_step.
    change (decode_step
              (MkDecode (MkScanner stateEndValue [parseObjectValue]) [] kv.1
                 (<[kv.1 := kv.2]> t) e) ",")
      with (MkDecode (MkScanner stateBeginString [parseObjectKey]) [] kv.1
              (<[kv.1 := kv.2]> t) e).
    destruct (IH stateBeginString kv' [] kv.1 (<[kv.1 := kv.2]> t) e) as [k' Hk'];
      [by left | done |].
    exists k'. exact Hk'.
Qed.

Lemma object_decodes kvs :
  Forall (fun kv => plain kv.1 = true /\ plain kv.2 = true) kvs ->
  exists k',
    foldl decode_step (MkDecode reset [] "" ∅ None) (list_ascii_of_string (object kvs)) =
    MkDecode (MkScanner stateEndTop []) [] k' (members kvs) None.
Proof.
  intros Hall. destruct kvs as [| kv kvs].
  - exists "". reflexivity.
  - unfold object.
    change (list_ascii_of_string ("{" +:+ join_comma (map member (kv :: kvs)) +:+ "}"))
      with ("{"%char :: list_ascii_of_string (join_comma (map member (kv :: kvs)) +:+ "}")).
    rewrite list_ascii_app, foldl_step.
    change (decode_step (MkDecode reset [] "" ∅ None) "{")
      with (MkDecode (MkScanner stateBeginStringOrEmpty [parseObjectKey]) [] "" ∅ None).
    rewrite foldl_app.
    destruct (members_bytes kvs stateBeginStringOrEmpty kv [] "" ∅ None) as [k' ->];
      [by right | done |].
    exists k'. reflexivity.
Qed.

(** X21.  A payload that is a JSON object of string members, written
    with keys and values of printable ASCII without quote or backslash,
    is valid for the scanner and is decoded without error to exactly its
    members, a later member replacing an earlier one with the same key;
    this is the mapping [callAPI] then encodes. *)
Theorem flat_object_decodes_to_its_members kvs :
  Forall (fun kv => plain kv.1 = true /\ plain kv.2 = true) kvs ->
  checkValid (object kvs) = true /\
  Unmarshal (object kvs) ∅ = (members kvs, None) /\
  (forall cfg, Payload cfg = object kvs ->
     decode_payload cfg = members kvs /\
     range_Add (decode_payload cfg) = (fun v => [v]) <$> members kvs).
Proof.
  intros Hall. destruct (object_decodes kvs Hall) as [k' Hdec].
  assert (Hvalid : checkValid (object kvs) = true).
  { unfold checkValid.
    change reset with (scan (MkDecode reset [] "" ∅ None)).
    by rewrite <- fold_scan, Hdec. }
  assert (Hun : Unmarshal (object kvs) ∅ = (members kvs, None)).
  { unfold Unmarshal. by rewrite Hvalid, Hdec. }
  split; [exact Hvalid |]. split; [exact Hun |].
  intros cfg Hcfg. unfold decode_payload. rewrite Hcfg, Hun. simpl.
  split; [done |]. apply scheduler_facts.range_Add_fmap.
Qed.

Lemma flat_object_decodes_to_its_members_witness :
  object [("k", "v")] = Payload sample.echo_cfg /\
  Unmarshal (Payload sample.echo_cfg) ∅ = ({["k" := "v"]}, None).
Proof.
  split; [reflexivity |].
  destruct (flat_object_decodes_to_its_members [("k", "v")]) as (_ & Hun & _).
  - repeat constructor.
  - exact Hun.
Defined.

End payload_facts.
